(** * Request correlation and access logging of the task API

    A shallow embedding of the two Express middlewares of the backend
    ([requestLog] in request-logs.js, [accessLogger] in access-logs.js), of
    the module initialisation of access-logs.js and of the middleware
    registration in the server's [start], together with the parts of the
    JavaScript runtime they call (string methods, [JSON.stringify],
    [Number.prototype.toFixed], [Date.prototype.toISOString], the [fs]
    calls, the response's event emitter and Express's dispatch).

    JavaScript strings are modelled as Rocq strings, one [ascii] per code
    unit: Node decodes header bytes as latin1, so every header, method and
    URL code unit is below 256. *)

From Stdlib Require Import ZArith NArith Lia Bool Ascii String List.
From Stdlib Require Import DecimalString Sorted.
From Stdlib Require Import Floats.SpecFloat.
From stdpp Require Import base option list gmap strings.

Local Open Scope Z_scope.

(** ** JavaScript strings *)

Module JSString.

Definition quote_char : ascii := ascii_of_nat 34.
Definition newline_char : ascii := ascii_of_nat 10.
Definition comma_char : ascii := ascii_of_nat 44.

(** The empty string is the only falsy string. *)
Definition truthy (s : string) : bool :=
  match s with
  | EmptyString => false
  | String _ _ => true
  end.

(** [a || b] when [a] may be [undefined] and [b] is a string. *)
Definition or_else (a : option string) (b : string) : string :=
  match a with
  | Some s => if truthy s then s else b
  | None => b
  end.

(** [a || b] when both may be [undefined].  A falsy [a] yields [b]. *)
Definition or_undef (a b : option string) : option string :=
  match a with
  | Some s => if truthy s then Some s else b
  | None => b
  end.

(** [s.split(sep)] for a one-character separator: never empty. *)
Fixpoint split (sep : ascii) (s : string) : list string :=
  match s with
  | EmptyString => [EmptyString]
  | String c s' =>
      if Ascii.eqb c sep then EmptyString :: split sep s'
      else match split sep s' with
           | h :: t => String c h :: t
           | [] => [String c EmptyString]
           end
  end.

(** White space and line terminators of ECMAScript below code unit 256:
    TAB, LF, VT, FF, CR, SP and NBSP. *)
Definition is_space (c : ascii) : bool :=
  let n := N_of_ascii c in
  ((9 <=? n) && (n <=? 13) || (n =? 32) || (n =? 160))%N.

Fixpoint trimStart (s : string) : string :=
  match s with
  | EmptyString => EmptyString
  | String c s' => if is_space c then trimStart s' else s
  end.

Fixpoint trimEnd (s : string) : string :=
  match s with
  | EmptyString => EmptyString
  | String c s' =>
      match trimEnd s' with
      | EmptyString => if is_space c then EmptyString else String c EmptyString
      | t => String c t
      end
  end.

Definition trim (s : string) : string := trimEnd (trimStart s).

Fixpoint contains (c : ascii) (s : string) : bool :=
  match s with
  | EmptyString => false
  | String d s' => Ascii.eqb d c || contains c s'
  end.

Fixpoint last_char (s : string) : option ascii :=
  match s with
  | EmptyString => None
  | String c EmptyString => Some c
  | String _ s' => last_char s'
  end.

Definition is_digit (c : ascii) : bool :=
  let n := N_of_ascii c in ((48 <=? n) && (n <=? 57))%N.

Fixpoint all_digits (s : string) : bool :=
  match s with
  | EmptyString => true
  | String c s' => is_digit c && all_digits s'
  end.

(** Decimal rendering of a non-negative integer, as [Number::toString]
    renders integers below 10^21. *)
Definition of_N (n : N) : string := NilZero.string_of_uint (N.to_uint n).

End JSString.

(** ** Requests *)

Record Socket := { remoteAddress : option string }.

(** The fields of Express's request object the middlewares read.  [None]
    is JavaScript's [undefined]. *)
Record Request := {
  headers : gmap string string;
  ip : option string;
  method : string;
  originalUrl : option string;
  url : string;
  socket : option Socket
}.

(** access-logs.js, lines 18-21: the first entry of [x-forwarded-for]
    (or the empty string), trimmed; when that is falsy
    [req.socket?.remoteAddress]; when that is falsy too ["unknown"]. *)
Definition clientIp (req : Request) : string :=
  let first :=
    match headers req !! "x-forwarded-for" with
    | Some v => JSString.split JSString.comma_char v !! 0%nat
    | None => None
    end in
  let trimmed := JSString.trim (JSString.or_else first EmptyString) in
  if JSString.truthy trimmed then trimmed
  else JSString.or_else
         (match socket req with
          | Some sk => remoteAddress sk
          | None => None
          end) "unknown".

(** request-logs.js, line 2: [req.headers['x-request-id'] || 'no-rid']. *)
Definition rid (req : Request) : string :=
  JSString.or_else (headers req !! "x-request-id") "no-rid".

(** request-logs.js, line 3: [req.headers['x-forwarded-for'] || req.ip]. *)
Definition xff (req : Request) : option string :=
  JSString.or_undef (headers req !! "x-forwarded-for") (ip req).

(** ** [JSON.stringify] on the log record *)

(** The values a property of the logged object can hold.  [JSON.stringify]
    drops [undefined] properties, quotes strings and throws a [TypeError]
    on a BigInt. *)
Inductive JSValue :=
  | JSUndefined
  | JSStr (s : string)
  | JSBigInt (z : Z).

Definition of_option (o : option string) : JSValue :=
  match o with
  | Some s => JSStr s
  | None => JSUndefined
  end.

Inductive Errno := EEXIST | ENOTDIR | EACCES | ENOSPC | ENOENT.

Inductive JSError :=
  | TypeError (msg : string)
  | SystemError (code : Errno).

Inductive Result (A : Type) :=
  | Ok (a : A)
  | Throw (e : JSError).
Arguments Ok {A} a.
Arguments Throw {A} e.

Module JSON.

Definition hex_digit (n : N) : ascii :=
  match n with
  | 0 => "0" | 1 => "1" | 2 => "2" | 3 => "3" | 4 => "4" | 5 => "5"
  | 6 => "6" | 7 => "7" | 8 => "8" | 9 => "9" | 10 => "a" | 11 => "b"
  | 12 => "c" | 13 => "d" | 14 => "e" | _ => "f"
  end%N%char.

(** One code unit of QuoteJSONString. *)
Definition escape (c : ascii) : string :=
  let n := N_of_ascii c in
  if (n =? 8)%N then "\b"
  else if (n =? 9)%N then "\t"
  else if (n =? 10)%N then "\n"
  else if (n =? 12)%N then "\f"
  else if (n =? 13)%N then "\r"
  else if (n =? 34)%N then String "\" (String JSString.quote_char EmptyString)
  else if (n =? 92)%N then "\\"
  else if (n <? 32)%N then
    "\u00" +:+ String (hex_digit (n / 16)) (String (hex_digit (n mod 16)) EmptyString)
  else String c EmptyString.

Fixpoint escape_all (s : string) : string :=
  match s with
  | EmptyString => EmptyString
  | String c s' => escape c +:+ escape_all s'
  end.

Definition quote (s : string) : string :=
  String JSString.quote_char (escape_all s +:+ String JSString.quote_char EmptyString).

(** The members of an object, in property order; [undefined] properties
    are left out. *)
Fixpoint members (props : list (string * JSValue)) : Result (list string) :=
  match props with
  | [] => Ok []
  | (k, v) :: rest =>
      match v with
      | JSBigInt _ => Throw (TypeError "Do not know how to serialize a BigInt")
      | JSUndefined => members rest
      | JSStr s =>
          match members rest with
          | Ok ms => Ok ((quote k +:+ ":" +:+ quote s) :: ms)
          | Throw e => Throw e
          end
      end
  end.

Fixpoint join (sep : string) (l : list string) : string :=
  match l with
  | [] => EmptyString
  | [x] => x
  | x :: rest => x +:+ sep +:+ join sep rest
  end.

Definition stringify (props : list (string * JSValue)) : Result string :=
  match members props with
  | Ok ms => Ok ("{" +:+ join "," ms +:+ "}")
  | Throw e => Throw e
  end.

End JSON.

(** ** Numbers: binary64 and [toFixed] *)

Module Float64.

Definition prec : Z := 53.
Definition emax : Z := 1024.

(** [Number(b)] for a BigInt [b]: the nearest double, ties to even. *)
Definition of_BigInt (z : Z) : spec_float := binary_normalize prec emax z 0 false.

Definition div (x y : spec_float) : spec_float := SFdiv prec emax x y.

(** The literal [1e6]. *)
Definition million : spec_float := of_BigInt 1000000.

End Float64.

Module JSNumber.

Fixpoint take (n : nat) (s : string) : string :=
  match n, s with
  | S n', String c s' => String c (take n' s')
  | _, _ => EmptyString
  end.

Fixpoint drop (n : nat) (s : string) : string :=
  match n, s with
  | S n', String _ s' => drop n' s'
  | _, _ => s
  end.

(** The integer [n] for which [n / 10 - x] is as close to zero as
    possible, the larger one of two, for [x = m * 2^e]. *)
Definition nearest_tenths (m : positive) (e : Z) : Z :=
  if 0 <=? e then 10 * Z.pos m * 2 ^ e
  else (20 * Z.pos m + 2 ^ (- e)) / 2 ^ (- e + 1).

(** [x < 10^21] for [x = m * 2^e]. *)
Definition below_1e21 (m : positive) (e : Z) : bool :=
  if 0 <=? e then Z.pos m * 2 ^ e <? 10 ^ 21
  else Z.pos m <? 10 ^ 21 * 2 ^ (- e).

(** Steps 11.b to 11.c of [toFixed] with one fraction digit: the digits
    of [n], padded to two, with a point before the last one. *)
Definition place_point (n : Z) : string :=
  let m := JSString.of_N (Z.to_N n) in
  let m := if (String.length m <=? 1)%nat then String "0" m else m in
  let k := String.length m in
  take (k - 1) m +:+ "." +:+ drop (k - 1) m.

Section ToFixed.

(** [Number::toString], which [toFixed] falls back to for NaN, the
    infinities and values of at least 10^21. *)
Variable Number_toString : spec_float -> string.

(** [x.toFixed(1)]. *)
Definition toFixed1 (x : spec_float) : string :=
  match x with
  | S754_nan | S754_infinity _ => Number_toString x
  | S754_zero _ => place_point 0
  | S754_finite s m e =>
      (if s then "-" else EmptyString) +:+
      (if below_1e21 m e then place_point (nearest_tenths m e)
       else Number_toString (S754_finite false m e))
  end.

End ToFixed.

End JSNumber.

(** ** [Date.prototype.toISOString] *)

Module Date.

Definition msPerDay : Z := 86400000.

(** Year, month and day of the proleptic Gregorian calendar for a day
    number counted from 1970-01-01. *)
Definition civil_from_days (day : Z) : Z * Z * Z :=
  let z := day + 719468 in
  let era := z / 146097 in
  let doe := z - era * 146097 in
  let yoe := (doe - doe / 1460 + doe / 36524 - doe / 146096) / 365 in
  let doy := doe - (365 * yoe + yoe / 4 - yoe / 100) in
  let mp := (5 * doy + 2) / 153 in
  let d := doy - (153 * mp + 2) / 5 + 1 in
  let m := if mp <? 10 then mp + 3 else mp - 9 in
  let y := yoe + era * 400 in
  (if m <=? 2 then y + 1 else y, m, d).

Definition digit (d : Z) : ascii := ascii_of_N (48 + Z.to_N (d mod 10)).

(** The last [w] decimal digits of [n], zero padded. *)
Fixpoint pad (w : nat) (n : Z) : string :=
  match w with
  | O => EmptyString
  | S w' => pad w' (n / 10) +:+ String (digit n) EmptyString
  end.

Definition year_string (y : Z) : string :=
  if (0 <=? y) && (y <=? 9999) then pad 4 y
  else (if y <? 0 then "-" else "+") +:+ pad 6 (Z.abs y).

(** [new Date(t).toISOString()] for a time value [t] in milliseconds. *)
Definition toISOString (t : Z) : string :=
  let day := t / msPerDay in
  let ms := t mod msPerDay in
  let '(y, m, d) := civil_from_days day in
  year_string y +:+ "-" +:+ pad 2 m +:+ "-" +:+ pad 2 d +:+ "T" +:+
  pad 2 (ms / 3600000) +:+ ":" +:+ pad 2 (ms / 60000 mod 60) +:+ ":" +:+
  pad 2 (ms / 1000 mod 60) +:+ "." +:+ pad 3 (ms mod 1000) +:+ "Z".

End Date.

(** ** The process: file system, response, clocks and the event trace *)

Inductive Entry :=
  | EDir (writable : bool)
  | EFile (content : string).

(** Paths are lists of components below the root. *)
Record FS := {
  entries : gmap (list string) Entry;
  root_writable : bool;
  free_inodes : nat
}.

(** The arrow function [accessLogger] passes to [res.on], with the
    variables it closes over. *)
Inductive Listener :=
  | AccessLogFinish (start : Z) (req : Request).

(** An append handed to [fs.appendFile] and not yet completed.  Its
    callback is always the arrow function of access-logs.js, lines 26-28. *)
Record PendingAppend := { pa_path : list string; pa_data : string }.

Inductive Event :=
  | EvConsoleLog (line : string)
  | EvConsoleError (line : string)
  | EvOn (event : string)
  | EvNext
  | EvHandler
  | EvAppendFile (file : list string) (data : string)
  | EvListen.

Record World := {
  fs : FS;
  statusCode : N;
  listeners : list (string * Listener);
  pending : list PendingAppend;
  trace : list Event;
  hrtime : Z;
  wall_clock : Z
}.

Definition with_fs (f : FS) (w : World) : World :=
  {| fs := f; statusCode := statusCode w; listeners := listeners w;
     pending := pending w; trace := trace w; hrtime := hrtime w;
     wall_clock := wall_clock w |}.

Definition with_statusCode (c : N) (w : World) : World :=
  {| fs := fs w; statusCode := c; listeners := listeners w;
     pending := pending w; trace := trace w; hrtime := hrtime w;
     wall_clock := wall_clock w |}.

Definition with_listeners (l : list (string * Listener)) (w : World) : World :=
  {| fs := fs w; statusCode := statusCode w; listeners := l;
     pending := pending w; trace := trace w; hrtime := hrtime w;
     wall_clock := wall_clock w |}.

Definition with_pending (p : list PendingAppend) (w : World) : World :=
  {| fs := fs w; statusCode := statusCode w; listeners := listeners w;
     pending := p; trace := trace w; hrtime := hrtime w;
     wall_clock := wall_clock w |}.

Definition with_trace (t : list Event) (w : World) : World :=
  {| fs := fs w; statusCode := statusCode w; listeners := listeners w;
     pending := pending w; trace := t; hrtime := hrtime w;
     wall_clock := wall_clock w |}.

Definition with_clocks (hr wall : Z) (w : World) : World :=
  {| fs := fs w; statusCode := statusCode w; listeners := listeners w;
     pending := pending w; trace := trace w; hrtime := hr;
     wall_clock := wall |}.

(** Computations that read and write the process state and may throw.
    The state reached when an exception is thrown is kept. *)
Definition M (A : Type) : Type := World → Result A * World.

#[export] Instance M_ret : MRet M := λ A a w, (Ok a, w).

#[export] Instance M_bind : MBind M := λ A B k m w,
  match m w with
  | (Ok a, w') => k a w'
  | (Throw e, w') => (Throw e, w')
  end.

Definition throw {A} (e : JSError) : M A := λ w, (Throw e, w).
Definition gets {A} (f : World → A) : M A := λ w, (Ok (f w), w).
Definition modify (f : World → World) : M unit := λ w, (Ok tt, f w).
Definition lift {A} (r : Result A) : M A := λ w, (r, w).
Definition emit (e : Event) : M unit := modify (λ w, with_trace (trace w ++ [e]) w).

(** [console.log] and [console.error] with the line they print; the
    global console ignores errors of the underlying stream. *)
Definition console_log (line : string) : M unit := emit (EvConsoleLog line).
Definition console_error (line : string) : M unit := emit (EvConsoleError line).

Definition hrtime_bigint : M Z := gets hrtime.
Definition new_Date_toISOString : M string := gets (λ w, Date.toISOString (wall_clock w)).

(** [res.on(event, listener)]. *)
Definition res_on (event : string) (l : Listener) : M unit :=
  modify (λ w, with_listeners (listeners w ++ [(event, l)]) w) ;; emit (EvOn event).

(** [fs.appendFile(file, data, callback)]: the write is queued and the
    call returns at once. *)
Definition fs_appendFile (file : list string) (data : string) : M unit :=
  modify (λ w, with_pending (pending w ++ [{| pa_path := file; pa_data := data |}]) w) ;;
  emit (EvAppendFile file data).

(** The lines printed on standard output and on standard error, and the
    appends issued, in order. *)
Definition stdout (t : list Event) : list string :=
  omap (λ e, match e with EvConsoleLog l => Some l | _ => None end) t.
Definition stderr (t : list Event) : list string :=
  omap (λ e, match e with EvConsoleError l => Some l | _ => None end) t.
Definition appends (t : list Event) : list string :=
  omap (λ e, match e with EvAppendFile _ d => Some d | _ => None end) t.

(** ** [fs.mkdirSync(dir, { recursive: true })] *)

(** Walk from [parent], an existing directory, along [rest]: a component
    that is a directory is entered, a missing one is created when the
    parent is writable and an inode is free, a file in the way is an
    error. *)
Fixpoint mkdir_p (f : FS) (parent : list string) (parent_writable : bool)
    (rest : list string) : Result FS :=
  match rest with
  | [] => Ok f
  | c :: rest' =>
      let p := parent ++ [c] in
      match entries f !! p with
      | Some (EDir w) => mkdir_p f p w rest'
      | Some (EFile _) =>
          Throw (SystemError (match rest' with [] => EEXIST | _ => ENOTDIR end))
      | None =>
          if parent_writable then
            match free_inodes f with
            | O => Throw (SystemError ENOSPC)
            | S n =>
                mkdir_p {| entries := <[p := EDir true]> (entries f);
                           root_writable := root_writable f;
                           free_inodes := n |} p true rest'
            end
          else Throw (SystemError EACCES)
      end
  end.

Definition fs_mkdirSync_recursive (dir : list string) : M unit := λ w,
  match mkdir_p (fs w) [] (root_writable (fs w)) dir with
  | Ok f => (Ok tt, with_fs f w)
  | Throw e => (Throw e, w)
  end.

(** ** access-logs.js *)

Definition LOG_DIR : list string := ["usr"; "src"; "app"; "logs"].

(** [path.join(LOG_DIR, "access.log")]. *)
Definition ACCESS_LOG : list string := LOG_DIR ++ ["access.log"].

(** The module body, run once when the module is imported. *)
Definition access_logs_init : M unit := fs_mkdirSync_recursive LOG_DIR.

(** A middleware receives the request and [next]; the response lives in
    the process state. *)
Definition Middleware : Type := Request → M unit → M unit.

Definition accessLogger : Middleware := λ req next,
  start ← hrtime_bigint;
  res_on "finish" (AccessLogFinish start req) ;;
  next.

(** [Number(process.hrtime.bigint() - start) / 1e6]. *)
Definition durationMs (start now : Z) : spec_float :=
  Float64.div (Float64.of_BigInt (now - start)) Float64.million.

(** The callback given to [fs.appendFile]. *)
Definition appendFile_callback (err : option string) : M unit :=
  match err with
  | Some message => console_error ("access log write failed: " +:+ message)
  | None => mret tt
  end.

Section AccessLog.

Variable Number_toString : spec_float → string.

(** The template literal of line 23. *)
Definition access_line (ts ip : string) (req : Request) (status : N)
    (d : spec_float) : string :=
  ts +:+ " " +:+ ip +:+ " " +:+ method req +:+ " " +:+
  JSString.or_else (originalUrl req) (url req) +:+ " " +:+
  JSString.of_N status +:+ " " +:+
  JSNumber.toFixed1 Number_toString d +:+ "ms" +:+
  String JSString.newline_char EmptyString.

(** The body of the [finish] listener. *)
Definition on_finish (start : Z) (req : Request) : M unit :=
  now ← hrtime_bigint;
  let d := durationMs start now in
  let ip := clientIp req in
  ts ← new_Date_toISOString;
  status ← gets statusCode;
  fs_appendFile ACCESS_LOG (access_line ts ip req status d).

Definition run_listener (l : Listener) : M unit :=
  match l with
  | AccessLogFinish start req => on_finish start req
  end.

(** [res.emit(event)]: the listeners of that event, in registration
    order. *)
Fixpoint run_listeners (ls : list (string * Listener)) (event : string) : M unit :=
  match ls with
  | [] => mret tt
  | (name, l) :: rest =>
      (if String.eqb name event then run_listener l else mret tt) ;;
      run_listeners rest event
  end.

Definition res_emit (event : string) : M unit :=
  ls ← gets listeners; run_listeners ls event.

End AccessLog.

(** ** request-logs.js *)

Definition log_record (ts : string) (req : Request) : list (string * JSValue) :=
  [ ("timestamp", JSStr ts);
    ("requestId", JSStr (rid req));
    ("ip", of_option (xff req));
    ("method", JSStr (method req));
    ("path", of_option (originalUrl req));
    ("userAgent", of_option (headers req !! "user-agent")) ].

Definition requestLog : Middleware := λ req next,
  ts ← new_Date_toISOString;
  text ← lift (JSON.stringify (log_record ts req));
  console_log text ;;
  next.

(** ** The server *)

(** Express runs the stack in registration order; the [next] it hands to
    a middleware runs the rest of the stack. *)
Fixpoint dispatch (stack : list Middleware) (handler : Request → M unit)
    (req : Request) : M unit :=
  match stack with
  | [] => handler req
  | mw :: rest => mw req (emit EvNext ;; dispatch rest handler req)
  end.

(** [app.use(mw)]. *)
Definition app_use (mw : Middleware) (stack : list Middleware) : list Middleware :=
  stack ++ [mw].

(** [start], lines 72-73: [app.use(accessLogger); app.use(requestLog);]. *)
Definition server_stack : list Middleware :=
  app_use requestLog (app_use accessLogger []).

(** What follows the two loggers (body parser, CORS and the routes), seen
    from the loggers: it runs and settles the status code. *)
Definition route_handler (status : N) : Request → M unit := λ _,
  emit EvHandler ;; modify (with_statusCode status).

(** [start]: connect to the database, build the application, listen. *)
Definition start (db_error : option JSError) : M unit :=
  match db_error with
  | Some e => throw e
  | None => console_log "mongodb connected" ;; emit EvListen
  end.

(** Loading the server module: its imports are evaluated first, so the
    body of access-logs.js runs before [start] is called. *)
Definition boot (db_error : option JSError) : M unit :=
  access_logs_init ;; start db_error.

(** ** The event loop around one request *)

Inductive AppendOutcome :=
  | Written
  | Failed (message : string).

Definition file_content (f : FS) (p : list string) : string :=
  match entries f !! p with
  | Some (EFile c) => c
  | _ => EmptyString
  end.

Definition append_to (f : FS) (p : list string) (data : string) : FS :=
  {| entries := <[p := EFile (file_content f p +:+ data)]> (entries f);
     root_writable := root_writable f;
     free_inodes := free_inodes f |}.

(** The oldest queued append completes and its callback runs. *)
Definition complete_append (o : AppendOutcome) : M unit :=
  q ← gets pending;
  match q with
  | [] => mret tt
  | op :: rest =>
      modify (with_pending rest) ;;
      match o with
      | Written =>
          modify (λ w, with_fs (append_to (fs w) (pa_path op) (pa_data op)) w) ;;
          appendFile_callback None
      | Failed message => appendFile_callback (Some message)
      end
  end.

(** How a response ends: it is sent in full, [hr_elapsed] nanoseconds
    after arrival, or the connection is dropped first. *)
Inductive Fate :=
  | Finishes (hr_elapsed : N) (wall_at_finish : Z) (io : AppendOutcome)
  | Aborts.

Section Lifecycle.

Variable Number_toString : spec_float → string.

Definition pipeline (status : N) (req : Request) : M unit :=
  dispatch server_stack (route_handler status) req.

Definition settle (fate : Fate) : M unit :=
  match fate with
  | Finishes dt wall io =>
      modify (λ w, with_clocks (hrtime w + Z.of_N dt) wall w) ;;
      res_emit Number_toString "finish" ;;
      res_emit Number_toString "close" ;;
      complete_append io
  | Aborts => res_emit Number_toString "close"
  end.

Definition handle_request (req : Request) (status : N) (fate : Fate) : M unit :=
  pipeline status req ;; settle fate.

End Lifecycle.

(** ** Reading the logs *)

(** The value of property [k] of an object, [undefined] when missing. *)
Fixpoint field (k : string) (props : list (string * JSValue)) : JSValue :=
  match props with
  | [] => JSUndefined
  | (k', v) :: rest => if String.eqb k' k then v else field k rest
  end.

(** The record [requestLog] serialises in state [w]. *)
Definition logged_record (req : Request) (w : World) : list (string * JSValue) :=
  log_record (Date.toISOString (wall_clock w)) req.

Definition serialized (props : list (string * JSValue)) : string :=
  match JSON.stringify props with
  | Ok text => text
  | Throw _ => EmptyString
  end.

(** Index of the first event of a trace that satisfies [p]. *)
Fixpoint position (p : Event → bool) (t : list Event) : option nat :=
  match t with
  | [] => None
  | e :: t' => if p e then Some O else S <$> position p t'
  end.

(** Both kinds of event occur and the first [p] comes before the first [q]. *)
Definition occurs_before (p q : Event → bool) (t : list Event) : bool :=
  match position p t, position q t with
  | Some i, Some j => (i <? j)%nat
  | _, _ => false
  end.

Definition is_console_log (e : Event) : bool :=
  match e with EvConsoleLog _ => true | _ => false end.
Definition is_on_finish (e : Event) : bool :=
  match e with EvOn name => String.eqb name "finish" | _ => false end.
Definition is_handler (e : Event) : bool :=
  match e with EvHandler => true | _ => false end.
Definition is_append (e : Event) : bool :=
  match e with EvAppendFile _ _ => true | _ => false end.

(** The first entry of a comma separated list: what precedes the first
    separator. *)
Fixpoint before (sep : ascii) (s : string) : string :=
  match s with
  | EmptyString => EmptyString
  | String c s' => if Ascii.eqb c sep then EmptyString else String c (before sep s')
  end.

(** Sample inputs. *)
Definition sample_fs : FS :=
  {| entries := ∅; root_writable := true; free_inodes := 10 |}.

Definition sample_world : World :=
  {| fs := sample_fs; statusCode := 200; listeners := []; pending := [];
     trace := []; hrtime := 5000; wall_clock := 1762253246512 |}.

Definition sample_request (hs : gmap string string) : Request :=
  {| headers := hs; ip := Some "10.0.0.5"; method := "GET";
     originalUrl := Some "/api/health"; url := "/api/health";
     socket := Some {| remoteAddress := Some "10.0.0.5" |} |}.

(** ** Derived notions used in the statements *)

(** The line the [finish] listener hands to [fs.appendFile] in state [w]. *)
Definition written_line (N2S : spec_float → string) (start : Z) (req : Request)
    (w : World) : string :=
  access_line N2S (Date.toISOString (wall_clock w)) (clientIp req) req
    (statusCode w) (durationMs start (hrtime w)).

Definition queue_append (line : string) (w : World) : World :=
  with_trace (trace w ++ [EvAppendFile ACCESS_LOG line])
    (with_pending (pending w ++ [{| pa_path := ACCESS_LOG; pa_data := line |}]) w).

(** The transport-level peer address, [req.socket?.remoteAddress]. *)
Definition peer (req : Request) : option string :=
  match socket req with
  | Some sk => remoteAddress sk
  | None => None
  end.


(** The events a computation adds to the trace of [w]. *)
Definition new_events (m : M unit) (w : World) : list Event :=
  drop (length (trace w)) (trace (snd (m w))).

(** The state after the two loggers and the route handler have run. *)
Definition after_pipeline (status : N) (req : Request) (w : World) : World :=
  {| fs := fs w; statusCode := status;
     listeners := listeners w ++ [("finish", AccessLogFinish (hrtime w) req)];
     pending := pending w;
     trace := trace w ++ [EvOn "finish"; EvNext;
                          EvConsoleLog (serialized (logged_record req w));
                          EvNext; EvHandler];
     hrtime := hrtime w; wall_clock := wall_clock w |}.

(** The state in which the response of [req] ends with [fate], after the
    loggers and the route handler ran from [w]. *)
Definition at_finish (status : N) (req : Request) (dt : N) (wall : Z) (w : World) : World :=
  with_clocks (hrtime w + Z.of_N dt) wall (after_pipeline status req w).

(** Every component of [rest] below [parent] is a directory. *)
Fixpoint dirs_along (f : FS) (parent rest : list string) : Prop :=
  match rest with
  | [] => True
  | c :: rest' =>
      (∃ w, entries f !! (parent ++ [c]) = Some (EDir w)) ∧
      dirs_along f (parent ++ [c]) rest'
  end.

Definition is_listen (e : Event) : bool :=
  match e with EvListen => true | _ => false end.

Definition full_disk_world : World :=
  with_fs {| entries := ∅; root_writable := true; free_inodes := 0 |} sample_world.

(** [s] has the shape [pat], where a [d] of the pattern stands for one
    decimal digit and any other character for itself. *)
Fixpoint matches (pat s : string) : bool :=
  match pat, s with
  | EmptyString, EmptyString => true
  | String p pat', String c s' =>
      (if Ascii.eqb p "d" then JSString.is_digit c else Ascii.eqb p c) && matches pat' s'
  | _, _ => false
  end.

(** The ISO-8601 extended format with milliseconds in UTC, with a four
    digit year or a signed six digit year. *)
Definition iso8601 (s : string) : bool :=
  matches "dddd-dd-ddTdd:dd:dd.dddZ" s ||
  matches "+dddddd-dd-ddTdd:dd:dd.dddZ" s ||
  matches "-dddddd-dd-ddTdd:dd:dd.dddZ" s.

(** Number of occurrences of [c] in [s]. *)
Fixpoint count (c : ascii) (s : string) : nat :=
  match s with
  | EmptyString => O
  | String d s' => (if Ascii.eqb d c then 1 else 0) + count c s'
  end.

(** The pattern of [w] digits. *)
Fixpoint digits_pattern (w : nat) : string :=
  match w with
  | O => EmptyString
  | S w' => digits_pattern w' +:+ "d"
  end.

(** ** The task routes of the server *)

#[local] Unset Elimination Schemes.

(** A parsed JSON body, as [express.json()] leaves it in [req.body]. *)
Inductive Json :=
  | JNull
  | JBool (b : bool)
  | JNum (x : spec_float)
  | JStr (s : string)
  | JArr (items : list Json)
  | JObj (props : list (string * Json)).

#[local] Set Elimination Schemes.

(** The value [JSON.parse] keeps for key [k]: the last one. *)
Fixpoint last_assoc (k : string) (props : list (string * Json)) : option Json :=
  match props with
  | [] => None
  | (k', v) :: rest =>
      match last_assoc k rest with
      | Some v' => Some v'
      | None => if String.eqb k' k then Some v else None
      end
  end.

(** What a route handler can throw; the handlers are [async], so a throw
    rejects their promise and no response is sent. *)
Inductive ApiError :=
  | ErrNotAFunction
  | ErrPropertyOfNullish
  | ErrDuplicateKey
  | ErrValidation
  | ErrDbDown.

Inductive Try (A : Type) :=
  | Done (a : A)
  | Raise (e : ApiError).
Arguments Done {A} a.
Arguments Raise {A} e.

(** [v.k] for the keys the handlers read ([title] and [done]): [None] is
    [undefined]; reading a property of [undefined] or [null] throws. *)
Definition get_prop (v : option Json) (k : string) : Try (option Json) :=
  match v with
  | None | Some JNull => Raise ErrPropertyOfNullish
  | Some (JObj props) => Done (last_assoc k props)
  | Some _ => Done None
  end.

(** [v?.k]. *)
Definition get_prop_opt (v : option Json) (k : string) : option Json :=
  match v with
  | Some (JObj props) => last_assoc k props
  | _ => None
  end.

(** [v.trim()]: only strings have the method. *)
Definition call_trim (v : option Json) : Try string :=
  match v with
  | None | Some JNull => Raise ErrPropertyOfNullish
  | Some (JStr s) => Done (JSString.trim s)
  | Some _ => Raise ErrNotAFunction
  end.

(** [v?.trim()]: [None] is [undefined]. *)
Definition call_trim_opt (v : option Json) : Try (option string) :=
  match v with
  | None | Some JNull => Done None
  | Some (JStr s) => Done (Some (JSString.trim s))
  | Some _ => Raise ErrNotAFunction
  end.

(** [!!v]. *)
Definition json_truthy (v : option Json) : bool :=
  match v with
  | None | Some JNull => false
  | Some (JBool b) => b
  | Some (JNum (S754_zero _)) | Some (JNum S754_nan) => false
  | Some (JNum _) => true
  | Some (JStr s) => JSString.truthy s
  | Some (JArr _) | Some (JObj _) => true
  end.

(** A document of the [Task] model: the schema's three paths and the
    two timestamps. *)
Record Task := {
  t_id : string;
  t_title : string;
  t_done : bool;
  t_createdAt : Z;
  t_updatedAt : Z
}.

(** What a handler gets from outside: the clock, the value of
    [randomUUID()] and whether the database answers. *)
Record Env := { now : Z; uuid : string; db_up : bool }.

Inductive ReplyBody :=
  | ErrorBody (error : string)
  | TaskBody (t : Task)
  | TasksBody (l : list Task)
  | HealthBody (ok : bool)
  | NoBody.

Inductive Outcome :=
  | Responds (status : N) (body : ReplyBody)
  | Rejects (e : ApiError).

Definition has_id (i : string) (db : list Task) : bool :=
  existsb (λ t, String.eqb (t_id t) i) db.

(** [Task.create(doc)]: the schema requires a title and an id, the id
    index is unique, and the timestamps are set. *)
Definition Task_create (env : Env) (i title : string) (d : bool) (db : list Task)
    : Try (Task * list Task) :=
  if negb (db_up env) then Raise ErrDbDown
  else if negb (JSString.truthy title) || negb (JSString.truthy i) then Raise ErrValidation
  else if has_id i db then Raise ErrDuplicateKey
  else
    let t := {| t_id := i; t_title := title; t_done := d;
                t_createdAt := now env; t_updatedAt := now env |} in
    Done (t, db ++ [t]).

Fixpoint insert_newest (t : Task) (l : list Task) : list Task :=
  match l with
  | [] => [t]
  | u :: l' =>
      if t_createdAt u <? t_createdAt t then t :: l else u :: insert_newest t l'
  end.

(** [Task.find({}).sort({ createdAt: -1 }).lean()]. *)
Definition Task_find_newest_first (env : Env) (db : list Task) : Try (list Task) :=
  if negb (db_up env) then Raise ErrDbDown
  else Done (foldr insert_newest [] db).

Definition apply_updates (env : Env) (title : option string) (d : option bool)
    (t : Task) : Task :=
  {| t_id := t_id t;
     t_title := default (t_title t) title;
     t_done := default (t_done t) d;
     t_createdAt := t_createdAt t;
     t_updatedAt := now env |}.

Fixpoint update_first (env : Env) (i : string) (title : option string)
    (d : option bool) (db : list Task) : option Task * list Task :=
  match db with
  | [] => (None, [])
  | t :: rest =>
      if String.eqb (t_id t) i then
        let t' := apply_updates env title d t in (Some t', t' :: rest)
      else
        let '(found, rest') := update_first env i title d rest in
        (found, t :: rest')
  end.

(** [Task.findOneAndUpdate({ id }, updates, { new: true, lean: true })]:
    update validators are off, so the new title is stored as it is. *)
Definition Task_findOneAndUpdate (env : Env) (i : string) (title : option string)
    (d : option bool) (db : list Task) : Try (option Task * list Task) :=
  if negb (db_up env) then Raise ErrDbDown
  else Done (update_first env i title d db).

Fixpoint delete_first (i : string) (db : list Task) : N * list Task :=
  match db with
  | [] => (0%N, [])
  | t :: rest =>
      if String.eqb (t_id t) i then (1%N, rest)
      else let '(n, rest') := delete_first i rest in (n, t :: rest')
  end.

(** [Task.deleteOne({ id })], with its [deletedCount]. *)
Definition Task_deleteOne (env : Env) (i : string) (db : list Task)
    : Try (N * list Task) :=
  if negb (db_up env) then Raise ErrDbDown
  else Done (delete_first i db).

(** [app.post("/api/tasks", ...)], lines 104-109. *)
Definition post_task (env : Env) (body : option Json) (db : list Task)
    : Outcome * list Task :=
  match call_trim_opt (get_prop_opt body "title") with
  | Raise e => (Rejects e, db)
  | Done title =>
      if negb (JSString.truthy (default EmptyString title))
      then (Responds 400 (ErrorBody "title required"), db)
      else
        match get_prop body "done" with
        | Raise e => (Rejects e, db)
        | Done d =>
            match Task_create env (uuid env) (default EmptyString title)
                    (json_truthy d) db with
            | Done (task, db') => (Responds 201 (TaskBody task), db')
            | Raise e => (Rejects e, db)
            end
        end
  end.

(** [app.get("/api/tasks", ...)], lines 111-114. *)
Definition get_tasks (env : Env) (db : list Task) : Outcome * list Task :=
  match Task_find_newest_first env db with
  | Done items => (Responds 200 (TasksBody items), db)
  | Raise e => (Rejects e, db)
  end.

(** [app.put("/api/tasks/:id", ...)], lines 116-123. *)
Definition put_task (env : Env) (i : string) (body : option Json) (db : list Task)
    : Outcome * list Task :=
  match get_prop body "title" with
  | Raise e => (Rejects e, db)
  | Done title =>
      match (match title with
             | None => Done None
             | Some v => match call_trim (Some v) with
                         | Done s => Done (Some s)
                         | Raise e => Raise e
                         end
             end) with
      | Raise e => (Rejects e, db)
      | Done new_title =>
          match get_prop body "done" with
          | Raise e => (Rejects e, db)
          | Done d =>
              let new_done := match d with
                              | None => None
                              | Some v => Some (json_truthy (Some v))
                              end in
              match Task_findOneAndUpdate env i new_title new_done db with
              | Raise e => (Rejects e, db)
              | Done (None, _) => (Responds 404 (ErrorBody "not found"), db)
              | Done (Some updated, db') => (Responds 200 (TaskBody updated), db')
              end
          end
      end
  end.

(** [app.delete("/api/tasks/:id", ...)], lines 125-129. *)
Definition delete_task (env : Env) (i : string) (db : list Task)
    : Outcome * list Task :=
  match Task_deleteOne env i db with
  | Raise e => (Rejects e, db)
  | Done (n, db') =>
      if negb (n =? 1)%N then (Responds 404 (ErrorBody "not found"), db)
      else (Responds 204 NoBody, db')
  end.

(** [app.get("/api/health", ...)], lines 86-90: the ping is inside
    [try]/[catch]. *)
Definition get_health (env : Env) (db : list Task) : Outcome * list Task :=
  if db_up env then (Responds 200 (HealthBody true), db)
  else (Responds 500 (HealthBody false), db).

(** The five routes as one request type. *)
Inductive ApiCall :=
  | PostTask (body : option Json)
  | GetTasks
  | PutTask (i : string) (body : option Json)
  | DeleteTask (i : string)
  | GetHealth.

Definition serve (env : Env) (c : ApiCall) (db : list Task) : Outcome * list Task :=
  match c with
  | PostTask body => post_task env body db
  | GetTasks => get_tasks env db
  | PutTask i body => put_task env i body db
  | DeleteTask i => delete_task env i db
  | GetHealth => get_health env db
  end.

(** Started and not yet trimmed white space. *)
Definition starts_with_space (s : string) : bool :=
  match s with
  | EmptyString => false
  | String c _ => JSString.is_space c
  end.

Definition ends_with_space (s : string) : bool :=
  match JSString.last_char s with
  | Some c => JSString.is_space c
  | None => false
  end.

(** Every code unit of [s] is at least 32. *)
Fixpoint no_control (s : string) : bool :=
  match s with
  | EmptyString => true
  | String c s' => (32 <=? N_of_ascii c)%N && no_control s'
  end.

Definition sample_env : Env := {| now := 1762253246512; uuid := "u-1"; db_up := true |}.

(** A disk on which the log directory and an access log exist. *)
Definition world_with_log (c : string) : World :=
  with_fs {| entries := {[ ["usr"] := EDir true;
                           ["usr"; "src"] := EDir true;
                           ["usr"; "src"; "app"] := EDir true;
                           ["usr"; "src"; "app"; "logs"] := EDir false;
                           ACCESS_LOG := EFile c ]};
             root_writable := false; free_inodes := 0 |} sample_world.

(** [a] was created no earlier than [b]. *)
Definition newer_or_same (a b : Task) : Prop := t_createdAt b <= t_createdAt a.


(** * Properties *)

Ltac dlia := Z.to_euclidean_division_equations; lia.

Ltac run :=
  unfold console_log, console_error, res_on, fs_appendFile, hrtime_bigint,
    new_Date_toISOString;
  unfold emit;
  unfold mbind, M_bind, mret, M_ret, gets, modify, lift, throw; cbn.

(** ** Serialisation of the log record never throws *)

Lemma stringify_log_record ts req :
  JSON.stringify (log_record ts req) = Ok (serialized (log_record ts req)).
Proof.
  unfold serialized, JSON.stringify, log_record. cbn.
  destruct (xff req), (originalUrl req), (headers req !! "user-agent"); reflexivity.
Qed.

(** The model of [JSON.stringify] is partial: a BigInt property throws. *)
Lemma stringify_bigint_throws :
  JSON.stringify [("requestId", JSBigInt 10)]
  = Throw (TypeError "Do not know how to serialize a BigInt").
Proof. reflexivity. Qed.

Lemma requestLog_run req (next : M unit) w :
  requestLog req next w =
  next (with_trace (trace w ++ [EvConsoleLog (serialized (logged_record req w))]) w).
Proof.
  unfold requestLog, logged_record. run.
  rewrite stringify_log_record. reflexivity.
Qed.

Lemma split_first sep s : JSString.split sep s !! 0%nat = Some (before sep s).
Proof.
  induction s as [|c s IH]; cbn; [reflexivity|].
  destruct (Ascii.eqb c sep); [reflexivity|].
  destruct (JSString.split sep s) as [|h t]; cbn in *; congruence.
Qed.

Lemma on_finish_run N2S start req w :
  on_finish N2S start req w = (Ok tt, queue_append (written_line N2S start req w) w).
Proof. reflexivity. Qed.

Lemma truthy_nonempty s : s ≠ EmptyString → JSString.truthy s = true.
Proof. destruct s; [congruence | reflexivity]. Qed.

(** ** Correlation identifier *)

(** C3, as stated, fails: a request whose [x-request-id] header is present
    with the empty value is logged with [requestId] ["no-rid"], not with
    the header value. *)
Lemma requestId_present_header_refuted :
  ¬ (∀ (req : Request) (w : World) (v : string),
        headers req !! "x-request-id" = Some v →
        field "requestId" (logged_record req w) = JSStr v).
Proof.
  intros H.
  specialize (H (sample_request {[ "x-request-id" := EmptyString ]}) sample_world
                EmptyString eq_refl).
  discriminate H.
Qed.

(** C3, amended: the line [requestLog] prints is the serialisation of a
    record whose [requestId] is the [x-request-id] header value when the
    header is present and not empty, and the sentinel ["no-rid"] when the
    header is absent; it is always one of the two, so [requestLog] never
    makes up an identifier. *)
Theorem requestId_correlation (req : Request) (w : World) (next : M unit) :
  requestLog req next w =
    next (with_trace (trace w ++ [EvConsoleLog (serialized (logged_record req w))]) w) ∧
  (∀ v, headers req !! "x-request-id" = Some v → v ≠ EmptyString →
        field "requestId" (logged_record req w) = JSStr v) ∧
  (headers req !! "x-request-id" = None →
        field "requestId" (logged_record req w) = JSStr "no-rid") ∧
  (field "requestId" (logged_record req w) = JSStr "no-rid" ∨
   ∃ v, headers req !! "x-request-id" = Some v ∧
        field "requestId" (logged_record req w) = JSStr v).
Proof.
  split; [apply requestLog_run|].
  cbn. unfold rid.
  destruct (headers req !! "x-request-id") as [v|] eqn:Hv; cbn.
  - repeat split.
    + intros v' [= <-] Hne. by rewrite truthy_nonempty.
    + discriminate.
    + destruct (JSString.truthy v); [right; eauto | by left].
  - repeat split; [discriminate | by left].
Qed.

Lemma requestId_correlation_witness :
  field "requestId"
    (logged_record (sample_request {[ "x-request-id" := "abc123" ]}) sample_world)
  = JSStr "abc123" ∧
  field "requestId" (logged_record (sample_request ∅) sample_world) = JSStr "no-rid".
Proof.
  split.
  - apply (proj1 (proj2 (requestId_correlation
             (sample_request {[ "x-request-id" := "abc123" ]}) sample_world (mret tt)))
             "abc123"); [reflexivity | discriminate].
  - apply (proj1 (proj2 (proj2 (requestId_correlation
             (sample_request ∅) sample_world (mret tt))))).
    reflexivity.
Defined.



(** ** Client address *)

Lemma contains_trimStart c s :
  JSString.contains c s = false → JSString.contains c (JSString.trimStart s) = false.
Proof.
  induction s as [|a s IH]; cbn; [done|].
  intros [Ha Hs]%orb_false_elim.
  destruct (JSString.is_space a); [by apply IH|].
  cbn. by rewrite Ha, Hs.
Qed.

Lemma contains_trimEnd c s :
  JSString.contains c s = false → JSString.contains c (JSString.trimEnd s) = false.
Proof.
  induction s as [|a s IH]; cbn; [done|].
  intros [Ha Hs]%orb_false_elim. specialize (IH Hs).
  destruct (JSString.trimEnd s) as [|b t].
  - destruct (JSString.is_space a); cbn; [done|]. by rewrite Ha.
  - cbn in *. by rewrite Ha, IH.
Qed.

Lemma contains_trim c s :
  JSString.contains c s = false → JSString.contains c (JSString.trim s) = false.
Proof. intros H. by apply contains_trimEnd, contains_trimStart. Qed.

Lemma contains_before sep s : JSString.contains sep (before sep s) = false.
Proof.
  induction s as [|a s IH]; cbn; [done|].
  destruct (Ascii.eqb a sep) eqn:E; cbn; [done|]. by rewrite E, IH.
Qed.

(** The address of the access log holds no comma unless the peer address
    does. *)
Lemma clientIp_comma_free req :
  (∀ a, peer req = Some a → JSString.contains JSString.comma_char a = false) →
  JSString.contains JSString.comma_char (clientIp req) = false.
Proof.
  intros Hpeer. unfold clientIp. fold (peer req).
  set (first := match headers req !! "x-forwarded-for" with
                | Some v => JSString.split JSString.comma_char v !! 0%nat
                | None => None
                end).
  assert (Hfirst : JSString.contains JSString.comma_char
                     (JSString.or_else first EmptyString) = false).
  { subst first. destruct (headers req !! "x-forwarded-for") as [v|]; [|done].
    rewrite split_first. cbn.
    destruct (JSString.truthy _); [apply contains_before | done]. }
  destruct (JSString.truthy _); [by apply contains_trim|].
  destruct (peer req) as [a|] eqn:Ha; cbn; [|done].
  destruct (JSString.truthy a); [by apply Hpeer | done].
Qed.



(** ** The [ip] field of the structured log *)

(** C10, as stated, fails: with an [x-forwarded-for] header that is
    present and empty the [ip] field is [req.ip], not the header value. *)
Lemma ip_any_header_refuted :
  ¬ (∀ (req : Request) (w : World) (v : string),
        headers req !! "x-forwarded-for" = Some v →
        field "ip" (logged_record req w) = JSStr v).
Proof.
  intros H.
  specialize (H (sample_request {[ "x-forwarded-for" := EmptyString ]}) sample_world
                EmptyString eq_refl).
  discriminate H.
Qed.

(** C10, amended: with an [x-forwarded-for] header that is present and not
    empty, the [ip] field of the structured log is the whole header value;
    when that value holds a comma (a chain of more than one entry) and the
    peer address holds none, the client address of the access log differs
    from it. *)
Theorem ip_is_whole_chain (req : Request) (w : World) (v : string) :
  headers req !! "x-forwarded-for" = Some v →
  v ≠ EmptyString →
  field "ip" (logged_record req w) = JSStr v ∧
  (JSString.contains JSString.comma_char v = true →
   (∀ a, peer req = Some a → JSString.contains JSString.comma_char a = false) →
   clientIp req ≠ v).
Proof.
  intros Hv Hne. split.
  - cbn. unfold xff. rewrite Hv. cbn. by rewrite truthy_nonempty.
  - intros Hcomma Hpeer Heq.
    pose proof (clientIp_comma_free req Hpeer) as Hfree.
    rewrite Heq in Hfree. congruence.
Qed.

Lemma ip_is_whole_chain_witness :
  field "ip"
    (logged_record (sample_request {[ "x-forwarded-for" := "1.2.3.4, 5.6.7.8" ]})
       sample_world)
  = JSStr "1.2.3.4, 5.6.7.8" ∧
  clientIp (sample_request {[ "x-forwarded-for" := "1.2.3.4, 5.6.7.8" ]})
  ≠ "1.2.3.4, 5.6.7.8".
Proof.
  destruct (ip_is_whole_chain
              (sample_request {[ "x-forwarded-for" := "1.2.3.4, 5.6.7.8" ]})
              sample_world "1.2.3.4, 5.6.7.8") as [Hip Hne];
    [reflexivity | discriminate |].
  split; [exact Hip|].
  apply Hne; [reflexivity|].
  intros a [= <-]. reflexivity.
Defined.

(** ** Running the middlewares *)

Lemma accessLogger_run req (next : M unit) w :
  accessLogger req next w =
  next (with_trace (trace w ++ [EvOn "finish"])
          (with_listeners (listeners w ++ [("finish", AccessLogFinish (hrtime w) req)]) w)).
Proof. reflexivity. Qed.

Lemma server_stack_order : server_stack = [accessLogger; requestLog].
Proof. reflexivity. Qed.

Lemma pipeline_run status req w :
  pipeline status req w = (Ok tt, after_pipeline status req w).
Proof.
  unfold pipeline. rewrite server_stack_order. cbn [dispatch].
  rewrite accessLogger_run.
  unfold mbind at 1, M_bind at 1. unfold emit at 1, modify at 1.
  rewrite requestLog_run.
  unfold after_pipeline, route_handler, logged_record. run.
  unfold with_statusCode, with_trace. cbn.
  rewrite <- !app_assoc. reflexivity.
Qed.

Lemma new_events_app (m : M unit) w w' r l :
  m w = (r, w') → trace w' = trace w ++ l → new_events m w = l.
Proof.
  intros Hm Ht. unfold new_events. rewrite Hm. cbn. rewrite Ht.
  by rewrite drop_app_length.
Qed.

(** ** Control is passed on *)

(** C6: [requestLog] never throws: serialising its record always succeeds
    (every property is a string or [undefined], and there is no failure
    left to swallow), and whatever [next] is, running [requestLog] is
    running [next] once in the state where exactly the one line has been
    printed; with a [next] that only records its call the trace gains the
    line and then the call. *)
Theorem requestLog_passes_control (req : Request) (w : World) :
  JSON.stringify (logged_record req w) = Ok (serialized (logged_record req w)) ∧
  (∀ next : M unit,
     requestLog req next w =
     next (with_trace (trace w ++ [EvConsoleLog (serialized (logged_record req w))]) w)) ∧
  requestLog req (emit EvNext) w =
    (Ok tt, with_trace (trace w ++ [EvConsoleLog (serialized (logged_record req w));
                                     EvNext]) w).
Proof.
  split; [apply stringify_log_record|].
  split; [intros next; apply requestLog_run|].
  rewrite requestLog_run. run. unfold with_trace. cbn.
  by rewrite <- app_assoc.
Qed.

(** ** Order of the two loggers *)

(** C1, as stated, fails: on the sample request the structured line is
    not printed before the [finish] listener is registered. *)
Lemma log_before_registration_refuted :
  ¬ (∀ (req : Request) (status : N) (w : World),
        occurs_before is_console_log is_on_finish
          (new_events (pipeline status req) w) = true).
Proof.
  intros H. specialize (H (sample_request ∅) 200%N sample_world).
  vm_compute in H. discriminate H.
Qed.

(** C1, amended: [start] registers [accessLogger] before [requestLog], and
    for every request the events follow that order: the [finish] listener
    is registered first, then the structured line is printed, and then the
    route handler runs. *)
Theorem registration_before_log (req : Request) (status : N) (w : World) :
  server_stack = [accessLogger; requestLog] ∧
  new_events (pipeline status req) w =
    [EvOn "finish"; EvNext; EvConsoleLog (serialized (logged_record req w));
     EvNext; EvHandler] ∧
  occurs_before is_on_finish is_console_log (new_events (pipeline status req) w) = true.
Proof.
  assert (Hnew : new_events (pipeline status req) w =
                 [EvOn "finish"; EvNext; EvConsoleLog (serialized (logged_record req w));
                  EvNext; EvHandler]).
  { eapply new_events_app; [apply pipeline_run | reflexivity]. }
  split; [apply server_stack_order|]. split; [exact Hnew|].
  rewrite Hnew. reflexivity.
Qed.

(** ** A failed append *)

(** C7: when the queued append fails, the completion returns normally and
    its only effect besides leaving the queue is one line on standard
    error: the file system, the response (status code and listeners) and
    the clocks are as before, nothing is queued again and nothing is
    printed on standard output. *)
Theorem append_failure_contained (w : World) (op : PendingAppend)
    (rest : list PendingAppend) (message : string) :
  pending w = op :: rest →
  appendFile_callback (Some message) w =
    (Ok tt, with_trace (trace w ++ [EvConsoleError ("access log write failed: " +:+ message)]) w) ∧
  ∃ w', complete_append (Failed message) w = (Ok tt, w') ∧
        fs w' = fs w ∧ statusCode w' = statusCode w ∧ listeners w' = listeners w ∧
        pending w' = rest ∧
        trace w' = trace w ++ [EvConsoleError ("access log write failed: " +:+ message)] ∧
        hrtime w' = hrtime w ∧ wall_clock w' = wall_clock w.
Proof.
  intros Hq. split; [reflexivity|].
  unfold complete_append. run. rewrite Hq. run.
  eexists. split; [reflexivity|]. cbn. repeat split.
Qed.

Lemma append_failure_contained_witness :
  ∃ w', complete_append (Failed "ENOSPC: no space left on device")
          (queue_append "line" sample_world) = (Ok tt, w') ∧
        fs w' = sample_fs ∧ pending w' = [] ∧
        stderr (trace w') = ["access log write failed: ENOSPC: no space left on device"].
Proof.
  destruct (append_failure_contained (queue_append "line" sample_world)
              {| pa_path := ACCESS_LOG; pa_data := "line" |} []
              "ENOSPC: no space left on device" eq_refl)
    as (_ & w' & Hrun & Hfs & _ & _ & Hq & Ht & _).
  exists w'. split; [exact Hrun|]. split; [exact Hfs|]. split; [exact Hq|].
  rewrite Ht. reflexivity.
Defined.

(** ** One structured line and at most one access-log line *)

Arguments written_line : simpl never.
Arguments serialized : simpl never.
Arguments logged_record : simpl never.

Lemma file_content_append_to f p d :
  file_content (append_to f p d) p = file_content f p +:+ d.
Proof. unfold file_content at 1, append_to. cbn. by rewrite lookup_insert_eq. Qed.

Lemma bind_ok {A B} (m : M A) (k : A → M B) w a w' :
  m w = (Ok a, w') → (m ≫= k) w = k a w'.
Proof. intros Hm. unfold mbind, M_bind. by rewrite Hm. Qed.

Lemma res_emit_finish N2S start req w :
  listeners w = [("finish", AccessLogFinish start req)] →
  res_emit N2S "finish" w = (Ok tt, queue_append (written_line N2S start req w) w).
Proof.
  intros Hl. unfold res_emit.
  erewrite bind_ok by reflexivity. rewrite Hl. cbn [run_listeners String.eqb].
  cbn [Ascii.eqb Bool.eqb]. cbn [run_listener].
  erewrite bind_ok by apply on_finish_run. reflexivity.
Qed.

Lemma res_emit_close N2S start req w :
  listeners w = [("finish", AccessLogFinish start req)] →
  res_emit N2S "close" w = (Ok tt, w).
Proof.
  intros Hl. unfold res_emit.
  erewrite bind_ok by reflexivity. rewrite Hl. reflexivity.
Qed.

Lemma complete_append_one o op w :
  pending w = [op] →
  complete_append o w =
  (Ok tt,
   match o with
   | Written => with_fs (append_to (fs w) (pa_path op) (pa_data op)) (with_pending [] w)
   | Failed message =>
       with_trace (trace w ++ [EvConsoleError ("access log write failed: " +:+ message)])
         (with_pending [] w)
   end).
Proof.
  intros Hq. unfold complete_append.
  erewrite bind_ok by reflexivity. rewrite Hq.
  erewrite bind_ok by reflexivity.
  destruct o; reflexivity.
Qed.

Lemma handle_request_aborts N2S req status w :
  listeners w = [] →
  handle_request N2S req status Aborts w = (Ok tt, after_pipeline status req w).
Proof.
  intros Hl. unfold handle_request.
  erewrite bind_ok by apply pipeline_run.
  unfold settle. eapply res_emit_close. cbn. by rewrite Hl.
Qed.

Lemma handle_request_finishes N2S req status dt wall io w :
  listeners w = [] → pending w = [] →
  handle_request N2S req status (Finishes dt wall io) w =
  (Ok tt,
   let w2 := at_finish status req dt wall w in
   let line := written_line N2S (hrtime w) req w2 in
   match io with
   | Written =>
       with_fs (append_to (fs w) ACCESS_LOG line)
         (with_pending [] (queue_append line w2))
   | Failed message =>
       with_trace (trace w2 ++ [EvAppendFile ACCESS_LOG line;
                                EvConsoleError ("access log write failed: " +:+ message)])
         (with_pending [] (queue_append line w2))
   end).
Proof.
  intros Hl Hp. unfold handle_request.
  erewrite bind_ok by apply pipeline_run.
  unfold settle.
  erewrite bind_ok by reflexivity. fold (at_finish status req dt wall w).
  assert (Hl2 : listeners (at_finish status req dt wall w)
                = [("finish", AccessLogFinish (hrtime w) req)]).
  { cbn. by rewrite Hl. }
  erewrite bind_ok by (eapply res_emit_finish; exact Hl2).
  erewrite bind_ok by (eapply res_emit_close; exact Hl2).
  erewrite complete_append_one; [|cbn; by rewrite Hp].
  destruct io; cbn; [reflexivity|].
  unfold with_trace. cbn. by rewrite <- !app_assoc.
Qed.

(** C2: for every request, served on a fresh response with no append in
    flight, the loggers and the handler run without throwing and exactly
    one structured line is printed, before the handler runs.  When the
    response finishes, exactly one append of an access-log line is issued,
    after the handler; a successful write grows the access log by exactly
    that line and a failed one leaves the file system as it was.  When the
    connection is dropped first, no append is issued and the file system
    is as it was. *)
Theorem one_record_per_request (N2S : spec_float → string) (req : Request)
    (status : N) (fate : Fate) (w : World) :
  listeners w = [] →
  pending w = [] →
  (pipeline status req w = (Ok tt, after_pipeline status req w) ∧
   stdout (new_events (pipeline status req) w) = [serialized (logged_record req w)] ∧
   occurs_before is_console_log is_handler (new_events (pipeline status req) w) = true) ∧
  ∃ w', handle_request N2S req status fate w = (Ok tt, w') ∧
    stdout (new_events (handle_request N2S req status fate) w)
      = [serialized (logged_record req w)] ∧
    match fate with
    | Finishes dt wall io =>
        let line := written_line N2S (hrtime w) req (at_finish status req dt wall w) in
        appends (new_events (handle_request N2S req status fate) w) = [line] ∧
        occurs_before is_handler is_append
          (new_events (handle_request N2S req status fate) w) = true ∧
        match io with
        | Written =>
            file_content (fs w') ACCESS_LOG = file_content (fs w) ACCESS_LOG +:+ line
        | Failed _ => fs w' = fs w
        end
    | Aborts =>
        appends (new_events (handle_request N2S req status fate) w) = [] ∧
        fs w' = fs w
    end.
Proof.
  intros Hl Hp. split.
  - split; [apply pipeline_run|].
    erewrite (new_events_app (pipeline status req)) by
      (first [apply pipeline_run | reflexivity]).
    by split.
  - destruct fate as [dt wall io|].
    + eexists. split; [by apply handle_request_finishes|].
      set (line := written_line _ _ _ _).
      destruct io as [|message].
      * erewrite (new_events_app (handle_request N2S req status _)); cycle 1.
        { by apply handle_request_finishes. }
        { cbn. fold line. rewrite <- app_assoc. reflexivity. }
        cbn. repeat split. apply file_content_append_to.
      * erewrite (new_events_app (handle_request N2S req status _)); cycle 1.
        { by apply handle_request_finishes. }
        { cbn. fold line. rewrite <- app_assoc. reflexivity. }
        cbn. repeat split.
    + eexists. split; [by apply handle_request_aborts|].
      erewrite (new_events_app (handle_request N2S req status _)); cycle 1.
      { by apply handle_request_aborts. }
      { reflexivity. }
      by repeat split.
Qed.

Lemma one_record_per_request_witness :
  ∃ w', handle_request (λ _, "NaN") (sample_request ∅) 200
          (Finishes 1234567 1762253246514 Written) sample_world = (Ok tt, w') ∧
        file_content (fs w') ACCESS_LOG =
          "2025-11-04T10:47:26.514Z 10.0.0.5 GET /api/health 200 1.2ms"
          +:+ String JSString.newline_char EmptyString.
Proof.
  destruct (one_record_per_request (λ _, "NaN") (sample_request ∅) 200
              (Finishes 1234567 1762253246514 Written) sample_world eq_refl eq_refl)
    as (_ & w' & Hrun & _ & _ & _ & Hfile).
  exists w'. split; [exact Hrun|].
  rewrite Hfile. vm_compute. reflexivity.
Defined.

(** ** Creating the log directory *)

Lemma mkdir_p_existing f parent pw rest :
  dirs_along f parent rest → mkdir_p f parent pw rest = Ok f.
Proof.
  revert parent pw. induction rest as [|c rest IH]; intros parent pw; cbn; [done|].
  intros [[w Hw] Hrest]. rewrite Hw. by apply IH.
Qed.

Lemma mkdir_p_preserves f parent pw rest f' :
  mkdir_p f parent pw rest = Ok f' →
  root_writable f' = root_writable f ∧
  ∀ q e, entries f !! q = Some e → entries f' !! q = Some e.
Proof.
  revert f parent pw. induction rest as [|c rest IH]; intros f parent pw; cbn.
  - by intros [= <-].
  - destruct (entries f !! (parent ++ [c])) as [[w|content]|] eqn:Hp.
    + apply IH.
    + discriminate.
    + destruct pw; [|discriminate].
      destruct (free_inodes f) as [|n]; [discriminate|].
      intros Hrun. apply IH in Hrun as [Hroot Hkeep]. split; [exact Hroot|].
      intros q e Hq. apply Hkeep. cbn.
      rewrite lookup_insert_ne; [exact Hq | congruence].
Qed.

Lemma mkdir_p_creates f parent pw rest f' :
  mkdir_p f parent pw rest = Ok f' → dirs_along f' parent rest.
Proof.
  revert f parent pw. induction rest as [|c rest IH]; intros f parent pw; cbn; [done|].
  destruct (entries f !! (parent ++ [c])) as [[w|content]|] eqn:Hp.
  - intros Hrun. split; [|by eapply IH].
    exists w. by eapply mkdir_p_preserves.
  - discriminate.
  - destruct pw; [|discriminate].
    destruct (free_inodes f) as [|n]; [discriminate|].
    intros Hrun. split; [|by eapply IH].
    exists true. eapply mkdir_p_preserves; [exact Hrun|].
    cbn. apply lookup_insert_eq.
Qed.

Lemma with_fs_same w : with_fs (fs w) w = w.
Proof. by destruct w. Qed.

(** C8: creating the log directory at start-up is idempotent and fatal on
    failure.  When the directory and its parents exist, the step succeeds
    and changes nothing; when it succeeds, the directory and its parents
    exist afterwards and a second run succeeds and changes nothing; when
    it throws, loading the server throws the same error and [start] never
    runs, so the server never listens. *)
Theorem log_dir_creation (w : World) :
  (dirs_along (fs w) [] LOG_DIR → access_logs_init w = (Ok tt, w)) ∧
  (∀ w1, access_logs_init w = (Ok tt, w1) →
         dirs_along (fs w1) [] LOG_DIR ∧ access_logs_init w1 = (Ok tt, w1)) ∧
  (∀ e w1 db, access_logs_init w = (Throw e, w1) →
         boot db w = (Throw e, w1) ∧
         new_events (boot db) w = [] ∧
         position is_listen (trace (snd (boot db w))) = position is_listen (trace w)).
Proof.
  unfold access_logs_init, fs_mkdirSync_recursive.
  split; [|split].
  - intros Hdirs. rewrite (mkdir_p_existing _ _ _ _ Hdirs). by rewrite with_fs_same.
  - intros w1.
    destruct (mkdir_p (fs w) [] (root_writable (fs w)) LOG_DIR) as [f|e] eqn:Hrun;
      [|discriminate].
    intros [= <-]. change (fs (with_fs f w)) with f.
    pose proof (mkdir_p_creates _ _ _ _ _ Hrun) as Hdirs.
    split; [exact Hdirs|].
    by rewrite (mkdir_p_existing _ _ _ _ Hdirs).
  - intros e w1 db.
    destruct (mkdir_p (fs w) [] (root_writable (fs w)) LOG_DIR) as [f|e'] eqn:Hrun;
      [discriminate|].
    intros [= <- <-].
    assert (Hboot : boot db w = (Throw e', w)).
    { unfold boot, access_logs_init, fs_mkdirSync_recursive, mbind, M_bind.
      by rewrite Hrun. }
    split; [exact Hboot|]. unfold new_events. rewrite Hboot. cbn.
    split; [by rewrite drop_all | reflexivity].
Qed.

Lemma log_dir_creation_witness :
  (∃ w1, access_logs_init sample_world = (Ok tt, w1) ∧
         access_logs_init w1 = (Ok tt, w1)) ∧
  boot None full_disk_world = (Throw (SystemError ENOSPC), full_disk_world).
Proof.
  split.
  - destruct (access_logs_init sample_world) as [[[]|e] w1] eqn:Hrun;
      [|vm_compute in Hrun; discriminate Hrun].
    exists w1. split; [reflexivity|].
    apply (proj1 (proj2 (log_dir_creation sample_world)) w1 Hrun).
  - apply (proj2 (proj2 (log_dir_creation full_disk_world))
             (SystemError ENOSPC) full_disk_world None).
    reflexivity.
Defined.

(** ** Binary64 arithmetic of the duration *)

Lemma digits2_pos_bounds (p : positive) :
  2 ^ (Z.pos (digits2_pos p) - 1) <= Z.pos p < 2 ^ Z.pos (digits2_pos p).
Proof.
  induction p as [p IH|p IH|]; cbn [digits2_pos].
  - rewrite Pos2Z.inj_succ.
    replace (Z.succ (Z.pos (digits2_pos p)) - 1) with (Z.succ (Z.pos (digits2_pos p) - 1)) by lia.
    rewrite !Z.pow_succ_r by lia. lia.
  - rewrite Pos2Z.inj_succ.
    replace (Z.succ (Z.pos (digits2_pos p)) - 1) with (Z.succ (Z.pos (digits2_pos p) - 1)) by lia.
    rewrite !Z.pow_succ_r by lia. lia.
  - cbn. lia.
Qed.

Lemma Zdigits2_le (m k : Z) : 0 < m -> 0 <= k -> m < 2 ^ k -> Zdigits2 m <= k.
Proof.
  intros Hm Hk Hlt. destruct m as [|p|p]; try lia. cbn [Zdigits2].
  pose proof (digits2_pos_bounds p) as [Hlo _].
  destruct (Z_le_gt_dec (Z.pos (digits2_pos p)) k) as [|Hgt]; [assumption|].
  exfalso.
  assert (2 ^ k <= 2 ^ (Z.pos (digits2_pos p) - 1)) by (apply Z.pow_le_mono_r; lia).
  lia.
Qed.

Lemma Zdigits2_nonneg m : 0 <= m -> 0 <= Zdigits2 m.
Proof. destruct m; cbn; lia. Qed.

Lemma Zdigits2_upper m : 0 <= m -> m < 2 ^ Zdigits2 m.
Proof.
  destruct m as [|p|p]; cbn [Zdigits2]; try lia.
  intros _. apply digits2_pos_bounds.
Qed.

Lemma shr_1_m mrs : 0 <= shr_m mrs -> shr_m (shr_1 mrs) = shr_m mrs / 2.
Proof.
  destruct mrs as [m r s]. cbn [shr_m shr_1]. intros Hm.
  destruct m as [|[p|p|]|p]; cbn [shr_m]; dlia.
Qed.

Lemma iter_shr_1_m (n : positive) mrs :
  0 <= shr_m mrs -> shr_m (SpecFloat.iter_pos shr_1 n mrs) = shr_m mrs / 2 ^ Z.pos n.
Proof.
  revert mrs. induction n as [n IH|n IH|]; intros mrs Hm; cbn [SpecFloat.iter_pos].
  - assert (H1 : 0 <= shr_m (shr_1 mrs)).
    { rewrite shr_1_m by assumption. apply Z.div_pos; lia. }
    assert (H2 : 0 <= shr_m (SpecFloat.iter_pos shr_1 n (shr_1 mrs))).
    { rewrite IH by assumption. apply Z.div_pos; lia. }
    rewrite IH, IH, shr_1_m by assumption.
    rewrite !Z.div_div by lia.
    f_equal. rewrite (Pos2Z.inj_xI n).
    rewrite (Z.add_1_r (2 * Z.pos n)), Z.pow_succ_r, Z.pow_twice_r by lia. reflexivity.
  - assert (H2 : 0 <= shr_m (SpecFloat.iter_pos shr_1 n mrs)).
    { rewrite IH by assumption. apply Z.div_pos; lia. }
    rewrite IH, IH by assumption.
    rewrite !Z.div_div by lia.
    f_equal. rewrite (Pos2Z.inj_xO n), Z.pow_twice_r. reflexivity.
  - rewrite shr_1_m by assumption. reflexivity.
Qed.

Lemma shr_record_of_loc_m m l : shr_m (shr_record_of_loc m l) = m.
Proof. destruct l as [|[]]; reflexivity. Qed.

Lemma shr_fexp_spec m e l :
  0 <= m ->
  shr_m (fst (shr_fexp 53 1024 m e l)) = m / 2 ^ (snd (shr_fexp 53 1024 m e l) - e) /\
  snd (shr_fexp 53 1024 m e l) = Z.max e (fexp 53 1024 (Zdigits2 m + e)).
Proof.
  intros Hm. unfold shr_fexp, shr.
  destruct (fexp 53 1024 (Zdigits2 m + e) - e) as [|n|n] eqn:Hn; cbn [fst snd].
  - rewrite shr_record_of_loc_m, Z.sub_diag, Z.div_1_r. split; [reflexivity|lia].
  - rewrite iter_shr_1_m by (rewrite shr_record_of_loc_m; assumption).
    rewrite shr_record_of_loc_m.
    replace (e + Z.pos n - e) with (Z.pos n) by lia. split; [reflexivity|lia].
  - rewrite shr_record_of_loc_m, Z.sub_diag, Z.div_1_r. split; [reflexivity|lia].
Qed.

Lemma round_nearest_even_bounds m l :
  m <= round_nearest_even m l <= m + 1.
Proof.
  unfold round_nearest_even. destruct l as [|[]]; try lia.
  destruct (Z.even m); lia.
Qed.

Lemma binary_round_aux_bounds sx mx ex lx :
  0 <= mx ->
  Z.max (Z.max ex (Zdigits2 mx + ex - 53)) (-1074) + 1 <= 971 ->
  binary_round_aux 53 1024 sx mx ex lx = S754_zero sx \/
  exists m e,
    binary_round_aux 53 1024 sx mx ex lx = S754_finite sx m e /\
    Z.pos m < 2 ^ 53 /\
    e <= Z.max (Z.max ex (Zdigits2 mx + ex - 53)) (-1074) + 1.
Proof.
  intros Hmx HE. unfold binary_round_aux.
  pose proof (shr_fexp_spec mx ex lx Hmx) as [Hm1 He1].
  destruct (shr_fexp 53 1024 mx ex lx) as [mrs1 e1]. cbn [fst snd] in Hm1, He1.
  set (m1 := shr_m mrs1) in *.
  pose proof (round_nearest_even_bounds m1 (loc_of_shr_record mrs1)) as Hm2.
  set (m2 := round_nearest_even m1 (loc_of_shr_record mrs1)) in *.
  unfold fexp, emin in He1.
  set (d := Zdigits2 mx) in *.
  assert (Hd : 0 <= d) by (by apply Zdigits2_nonneg).
  assert (Hk : 0 <= e1 - ex) by lia.
  assert (Hm1lo : 0 <= m1).
  { rewrite Hm1. apply Z.div_pos; [lia|]. apply Z.pow_pos_nonneg; lia. }
  assert (Hm1hi : m1 < 2 ^ 53).
  { rewrite Hm1. apply Z.div_lt_upper_bound; [apply Z.pow_pos_nonneg; lia|].
    rewrite <- Z.pow_add_r by lia.
    eapply Z.lt_le_trans; [apply (Zdigits2_upper mx Hmx)|].
    fold d. apply Z.pow_le_mono_r; lia. }
  assert (Hm2lo : 0 <= m2) by lia.
  pose proof (shr_fexp_spec m2 e1 loc_Exact Hm2lo) as [Hm3 He2].
  destruct (shr_fexp 53 1024 m2 e1 loc_Exact) as [mrs2 e2]. cbn [fst snd] in Hm3, He2.
  unfold fexp, emin in He2.
  assert (Hd2 : Zdigits2 m2 <= 54).
  { destruct (Z.eq_dec m2 0) as [->|]; [cbn; lia|].
    apply Zdigits2_le; lia. }
  assert (Hj : 0 <= e2 - e1) by lia.
  assert (Hm3hi : shr_m mrs2 < 2 ^ 53).
  { rewrite Hm3. apply Z.div_lt_upper_bound; [apply Z.pow_pos_nonneg; lia|].
    destruct (Z.eq_dec m2 (2 ^ 53)) as [Heq|Hne].
    - assert (Hd54 : Zdigits2 m2 = 54).
      { rewrite Heq. reflexivity. }
      assert (1 <= e2 - e1) by lia.
      assert (2 ^ 1 <= 2 ^ (e2 - e1)) by (apply Z.pow_le_mono_r; lia).
      rewrite Heq. change (2 ^ 1) with 2 in *. nia.
    - assert (2 ^ 0 <= 2 ^ (e2 - e1)) by (apply Z.pow_le_mono_r; lia).
      change (2 ^ 0) with 1 in *. nia. }
  assert (Hm3lo : 0 <= shr_m mrs2).
  { rewrite Hm3. apply Z.div_pos; [lia|]. apply Z.pow_pos_nonneg; lia. }
  destruct (shr_m mrs2) as [|m|m]; [by left| |lia].
  right. exists m, e2.
  assert (He2E : e2 <= Z.max (Z.max ex (d + ex - 53)) (-1074) + 1) by lia.
  split; [|split; [assumption|exact He2E]].
  assert (Hle : (e2 <=? 1024 - 53) = true) by (apply Z.leb_le; lia).
  by rewrite Hle.
Qed.

Lemma digits2_pos_iter_xO (p d : positive) :
  digits2_pos (Pos.iter xO p d) = (digits2_pos p + d)%positive.
Proof.
  induction d as [|d IH] using Pos.peano_ind.
  - cbn. lia.
  - rewrite Pos.iter_succ. cbn [digits2_pos]. rewrite IH. lia.
Qed.

Lemma shl_align_spec mx ex ex' :
  Zdigits2 (Z.pos (fst (shl_align mx ex ex'))) + snd (shl_align mx ex ex')
    = Zdigits2 (Z.pos mx) + ex /\
  snd (shl_align mx ex ex') <= ex.
Proof.
  unfold shl_align. destruct (ex' - ex) as [|d|d] eqn:Hd; cbn [fst snd Zdigits2].
  - lia.
  - lia.
  - rewrite digits2_pos_iter_xO. lia.
Qed.

Lemma of_BigInt_bounds z :
  0 <= z < 2 ^ 64 ->
  binary_normalize 53 1024 z 0 false = S754_zero false \/
  exists m e,
    binary_normalize 53 1024 z 0 false = S754_finite false m e /\
    Z.pos m < 2 ^ 53 /\ e <= 12.
Proof.
  intros [Hlo Hhi]. destruct z as [|p|p]; [by left| |lia].
  cbn [binary_normalize]. unfold binary_round.
  pose proof (shl_align_spec p 0 (fexp 53 1024 (Z.pos (digits2_pos p) + 0))) as [Hdig Hexp].
  destruct (shl_align p 0 _) as [mz ez]. cbn [fst snd] in Hdig, Hexp.
  assert (Hd : Zdigits2 (Z.pos p) <= 64) by (apply Zdigits2_le; lia).
  destruct (binary_round_aux_bounds false (Z.pos mz) ez loc_Exact) as [Hz|(m & e & Hr & Hm & He)];
    [lia | lia | by left |].
  right. exists m, e. split; [exact Hr|]. split; [exact Hm|]. lia.
Qed.

Lemma div_million_bounds m1 e1 :
  Z.pos m1 < 2 ^ 53 -> e1 <= 12 ->
  SFdiv 53 1024 (S754_finite false m1 e1) (S754_finite false 8589934592000000 (-33))
    = S754_zero false \/
  exists m e,
    SFdiv 53 1024 (S754_finite false m1 e1) (S754_finite false 8589934592000000 (-33))
      = S754_finite false m e /\
    Z.pos m < 2 ^ 53 /\ e <= 16.
Proof.
  intros Hm1 He1. unfold SFdiv, SFdiv_core_binary.
  change (Zdigits2 8589934592000000) with 53.
  set (d1 := Zdigits2 (Z.pos m1)).
  assert (Hd1 : d1 <= 53) by (apply Zdigits2_le; lia).
  assert (Hd1lo : 0 <= d1) by (by apply Zdigits2_nonneg).
  set (e' := Z.min (fexp 53 1024 (d1 + e1 - (53 + -33))) (e1 - -33)).
  assert (He' : e' <= -8 /\ e' <= e1 + 33) by (subst e'; unfold fexp, emin; lia).
  set (s := e1 - -33 - e').
  assert (Hs : 0 <= s) by (subst s; lia).
  set (m' := match s with Z.pos _ => Z.shiftl (Z.pos m1) s | 0 => Z.pos m1 | Z.neg _ => 0 end).
  assert (Hm' : m' = Z.pos m1 * 2 ^ s).
  { subst m'. destruct s as [|k|k] eqn:Hk; [cbn; lia| |lia].
    by rewrite Z.shiftl_mul_pow2. }
  assert (Hm'hi : m' < 2 ^ (d1 + s)).
  { rewrite Hm', Z.pow_add_r by lia.
    apply Z.mul_lt_mono_pos_r; [apply Z.pow_pos_nonneg; lia|].
    apply (Zdigits2_upper (Z.pos m1)). lia. }
  assert (Hquot : fst (Z.div_eucl m' 8589934592000000) = m' / 8589934592000000) by reflexivity.
  destruct (Z.div_eucl m' 8589934592000000) as [q r]. cbn [fst] in Hquot.
  assert (Hq0 : 0 <= q).
  { rewrite Hquot. apply Z.div_pos; [|lia]. rewrite Hm'.
    apply Z.mul_nonneg_nonneg; [lia|]. apply Z.pow_nonneg. lia. }
  assert (Hqm : q * 2 ^ 52 <= m').
  { assert (q * 8589934592000000 <= m').
    { rewrite Hquot, Z.mul_comm. apply Z.mul_div_le. lia. }
    assert (2 ^ 52 <= 8589934592000000) by (vm_compute; discriminate).
    nia. }
  assert (Hdq : Zdigits2 q <= Z.max 0 (d1 + s - 52)).
  { destruct (Z.eq_dec q 0) as [->|Hq]; [cbn; lia|].
    assert (Hlt : 2 ^ 52 < 2 ^ (d1 + s)) by nia.
    apply Z.pow_lt_mono_r_iff in Hlt; [|lia|lia].
    apply Z.le_trans with (d1 + s - 52); [|lia].
    apply Zdigits2_le; [lia|lia|].
    apply Z.mul_lt_mono_pos_r with (2 ^ 52); [lia|].
    rewrite <- Z.pow_add_r by lia.
    replace (d1 + s - 52 + 52) with (d1 + s) by lia. lia. }
  destruct (binary_round_aux_bounds (xorb false false) q e' (new_location 8589934592000000 r))
    as [Hz|(m & e & Hr & Hm & He)]; [lia | lia | by left |].
  right. exists m, e. split; [exact Hr|]. split; [exact Hm|]. lia.
Qed.

Lemma million_value : Float64.million = S754_finite false 8589934592000000 (-33).
Proof. vm_compute. reflexivity. Qed.

(** The duration of a request is zero or a positive double below 2^69. *)
Lemma durationMs_small start now :
  0 <= now - start < 2 ^ 64 ->
  durationMs start now = S754_zero false \/
  exists m e,
    durationMs start now = S754_finite false m e /\ Z.pos m < 2 ^ 53 /\ e <= 16.
Proof.
  intros Hrange. unfold durationMs, Float64.div, Float64.of_BigInt.
  rewrite million_value. unfold Float64.prec, Float64.emax.
  destruct (of_BigInt_bounds (now - start) Hrange) as [->|(m1 & e1 & -> & Hm1 & He1)].
  - by left.
  - by apply div_million_bounds.
Qed.

Lemma below_1e21_small m e :
  Z.pos m < 2 ^ 53 -> e <= 16 -> JSNumber.below_1e21 m e = true.
Proof.
  intros Hm He. unfold JSNumber.below_1e21.
  destruct (0 <=? e) eqn:Hsign.
  - apply Z.leb_le in Hsign. apply Z.ltb_lt.
    assert (Hpow : 2 ^ e <= 2 ^ 16) by (apply Z.pow_le_mono_r; lia).
    assert (0 < 2 ^ e) by (apply Z.pow_pos_nonneg; lia).
    assert (Hbig : 2 ^ 53 * 2 ^ 16 < 10 ^ 21) by (vm_compute; reflexivity).
    nia.
  - apply Z.leb_gt in Hsign. apply Z.ltb_lt.
    assert (Hpow : 2 ^ 0 <= 2 ^ (- e)) by (apply Z.pow_le_mono_r; lia).
    change (2 ^ 0) with 1 in Hpow.
    assert (Hbig : 2 ^ 53 < 10 ^ 21) by (vm_compute; reflexivity).
    nia.
Qed.

(** ** Decimal digits *)

Lemma string_of_uint_digits u :
  JSString.all_digits (NilEmpty.string_of_uint u) = true.
Proof. induction u; cbn; done. Qed.

Lemma of_N_digits n :
  JSString.all_digits (JSString.of_N n) = true ∧ JSString.of_N n ≠ EmptyString.
Proof.
  unfold JSString.of_N, NilZero.string_of_uint.
  pose proof (string_of_uint_digits (N.to_uint n)) as Hd.
  destruct (N.to_uint n); split; try done.
Qed.

Lemma last_digit_split x y :
  JSString.all_digits (String x y) = true →
  JSString.all_digits (JSNumber.take (String.length y) (String x y)) = true ∧
  ∃ frac, JSNumber.drop (String.length y) (String x y) = String frac EmptyString ∧
          JSString.is_digit frac = true.
Proof.
  revert x. induction y as [|b y IH]; intros x Hd.
  - cbn in *. split; [done|]. exists x. split; [done|].
    by apply andb_true_iff in Hd as [? _].
  - cbn [JSString.all_digits] in Hd. apply andb_true_iff in Hd as [Hx Hy].
    destruct (IH b Hy) as [Htake (frac & Hdrop & Hfrac)].
    cbn [String.length JSNumber.take JSNumber.drop JSString.all_digits].
    split; [by rewrite Hx|]. by exists frac.
Qed.

(** The digits [toFixed] produces: an integer part of at least one digit,
    a point and one digit. *)
Lemma place_point_shape n :
  ∃ int frac,
    JSNumber.place_point n = int +:+ "." +:+ String frac EmptyString ∧
    int ≠ EmptyString ∧ JSString.all_digits int = true ∧ JSString.is_digit frac = true.
Proof.
  unfold JSNumber.place_point.
  destruct (of_N_digits (Z.to_N n)) as [Hd Hne].
  destruct (JSString.of_N (Z.to_N n)) as [|a m]; [done|].
  destruct (String.length (String a m) <=? 1)%nat eqn:Hlen.
  - assert (Hd0 : JSString.all_digits (String "0" (String a m)) = true) by done.
    destruct (last_digit_split _ _ Hd0) as [Htake (frac & Hdrop & Hfrac)].
    cbn [String.length Nat.sub] in *. rewrite ?Nat.sub_0_r.
    exists (JSNumber.take (S (String.length m)) (String "0" (String a m))), frac.
    rewrite Hdrop. done.
  - destruct (last_digit_split _ _ Hd) as [Htake (frac & Hdrop & Hfrac)].
    cbn [String.length Nat.sub] in *. rewrite ?Nat.sub_0_r.
    exists (JSNumber.take (String.length m) (String a m)), frac.
    rewrite Hdrop. repeat split; try done.
    destruct m; [discriminate Hlen | done].
Qed.

Lemma toFixed1_duration N2S start now :
  0 <= now - start < 2 ^ 64 ->
  ∃ int frac,
    JSNumber.toFixed1 N2S (durationMs start now) = int +:+ "." +:+ String frac EmptyString ∧
    int ≠ EmptyString ∧ JSString.all_digits int = true ∧ JSString.is_digit frac = true.
Proof.
  intros Hrange.
  destruct (durationMs_small start now Hrange) as [->|(m & e & -> & Hm & He)];
    cbn [JSNumber.toFixed1].
  - apply place_point_shape.
  - rewrite below_1e21_small by assumption. cbn [String.append]. apply place_point_shape.
Qed.

(** ** Shape of the timestamp and of the line *)

Lemma digit_is_digit d : JSString.is_digit (Date.digit d) = true.
Proof.
  unfold JSString.is_digit, Date.digit.
  assert (Hd : (Z.to_N (d mod 10) < 10)%N) by dlia.
  rewrite N_ascii_embedding by lia.
  apply andb_true_iff. split; apply N.leb_le; lia.
Qed.

Lemma matches_app p1 s1 p2 s2 :
  matches p1 s1 = true → matches p2 s2 = true → matches (p1 +:+ p2) (s1 +:+ s2) = true.
Proof.
  revert s1. induction p1 as [|p p1 IH]; intros [|c s1];
    cbn [matches String.append]; try done.
  intros [Hc Hrest]%andb_true_iff Hp2.
  change (matches (String p (p1 +:+ p2)) (String c (s1 +:+ s2)) = true).
  cbn [matches]. rewrite Hc. cbn [andb]. by apply IH.
Qed.

Lemma matches_pad w n : matches (digits_pattern w) (Date.pad w n) = true.
Proof.
  revert n. induction w as [|w IH]; intros n; cbn [digits_pattern Date.pad]; [done|].
  apply matches_app; [apply IH|]. cbn. by rewrite digit_is_digit.
Qed.

Lemma toISOString_shape t : iso8601 (Date.toISOString t) = true.
Proof.
  unfold Date.toISOString. destruct (Date.civil_from_days _) as [[y m] d].
  assert (Htail : ∀ a b c e f g,
    matches "-dd-ddTdd:dd:dd.dddZ"
      ("-" +:+ Date.pad 2 a +:+ "-" +:+ Date.pad 2 b +:+ "T" +:+ Date.pad 2 c +:+ ":" +:+
       Date.pad 2 e +:+ ":" +:+ Date.pad 2 f +:+ "." +:+ Date.pad 3 g +:+ "Z") = true).
  { intros.
    change "-dd-ddTdd:dd:dd.dddZ" with
      ("-" +:+ digits_pattern 2 +:+ "-" +:+ digits_pattern 2 +:+ "T" +:+
       digits_pattern 2 +:+ ":" +:+ digits_pattern 2 +:+ ":" +:+ digits_pattern 2 +:+
       "." +:+ digits_pattern 3 +:+ "Z").
    repeat (apply matches_app; [first [apply matches_pad | reflexivity]|]).
    reflexivity. }
  unfold iso8601, Date.year_string.
  destruct ((0 <=? y) && (y <=? 9999)).
  - apply orb_true_iff; left. apply orb_true_iff; left.
    change "dddd-dd-ddTdd:dd:dd.dddZ" with (digits_pattern 4 +:+ "-dd-ddTdd:dd:dd.dddZ").
    apply matches_app; [apply matches_pad | apply Htail].
  - destruct (y <? 0).
    + apply orb_true_iff; right.
      change "-dddddd-dd-ddTdd:dd:dd.dddZ"
        with (("-" +:+ digits_pattern 6) +:+ "-dd-ddTdd:dd:dd.dddZ").
      apply matches_app; [|apply Htail].
      apply (matches_app "-" "-"); [reflexivity | apply matches_pad].
    + apply orb_true_iff; left. apply orb_true_iff; right.
      change "+dddddd-dd-ddTdd:dd:dd.dddZ"
        with (("+" +:+ digits_pattern 6) +:+ "-dd-ddTdd:dd:dd.dddZ").
      apply matches_app; [|apply Htail].
      apply (matches_app "+" "+"); [reflexivity | apply matches_pad].
Qed.

Lemma count_app c a b : count c (a +:+ b) = (count c a + count c b)%nat.
Proof.
  induction a as [|x a IH]; [done|].
  change (count c (String x (a +:+ b)) = (count c (String x a) + count c b)%nat).
  cbn [count]. rewrite IH. lia.
Qed.

Lemma count_digits c s :
  JSString.is_digit c = false → JSString.all_digits s = true → count c s = O.
Proof.
  intros Hc. induction s as [|x s IH]; cbn; [done|].
  intros [Hx Hs]%andb_true_iff. rewrite (IH Hs).
  destruct (Ascii.eqb_spec x c) as [->|]; [congruence | done].
Qed.

Lemma count_matches c pat s :
  JSString.is_digit c = false → count c pat = O → matches pat s = true → count c s = O.
Proof.
  intros Hc. revert s. induction pat as [|p pat IH]; intros [|x s]; cbn; try done.
  intros Hpat [Hx Hs]%andb_true_iff.
  assert (Hp : Ascii.eqb p c = false ∧ count c pat = O).
  { destruct (Ascii.eqb p c); [discriminate Hpat | done]. }
  destruct Hp as [Hpc Hpat']. rewrite (IH _ Hpat' Hs).
  destruct (Ascii.eqb_spec x c) as [->|]; [|done].
  destruct (Ascii.eqb p "d"); [congruence|].
  apply Ascii.eqb_eq in Hx. subst p. by rewrite Ascii.eqb_refl in Hpc.
Qed.

Lemma count_newline_iso8601 s :
  iso8601 s = true → count JSString.newline_char s = O.
Proof.
  unfold iso8601. intros [[H|H]%orb_true_iff|H]%orb_true_iff;
    (eapply count_matches; [| |exact H]); reflexivity.
Qed.

Lemma last_char_cons c s : JSString.last_char (String c s) ≠ None.
Proof. revert c. induction s as [|d s IH]; intros c; [done|]. apply (IH d). Qed.

Lemma last_char_app a b :
  JSString.last_char (a +:+ b) =
  match JSString.last_char b with
  | Some c => Some c
  | None => JSString.last_char a
  end.
Proof.
  induction a as [|x a IH].
  - change (EmptyString +:+ b) with b. by destruct (JSString.last_char b).
  - change (String x a +:+ b) with (String x (a +:+ b)).
    destruct (a +:+ b) as [|y r] eqn:Hab.
    + destruct a; [|discriminate Hab]. change (EmptyString +:+ b) with b in Hab.
      by subst b.
    + change (JSString.last_char (String x (String y r)))
        with (JSString.last_char (String y r)).
      rewrite IH. destruct (JSString.last_char b) eqn:Hb; [done|].
      destruct a as [|z a]; [|done].
      change (EmptyString +:+ b) with b in Hab. subst b.
      by apply last_char_cons in Hb.
Qed.

(** ** The access-log line *)

(** C5: the line the [finish] listener appends, for a request whose
    monotonic clock readings are at most 2^64 nanoseconds apart, is the
    timestamp, the client address, the method, the path, the status code
    and the duration in that order, separated by single spaces and ended
    by a line feed.  The timestamp has the ISO-8601 shape, the status code
    is written in decimal digits, and the duration is a run of at least one
    decimal digit (so it carries no sign), a point, exactly one decimal
    digit and ["ms"].  The line feed is its last character, and its only
    one when the address, the method and the path hold none. *)
Theorem access_line_format (N2S : spec_float → string) (req : Request)
    (start : Z) (w : World) :
  0 <= hrtime w - start < 2 ^ 64 →
  on_finish N2S start req w = (Ok tt, queue_append (written_line N2S start req w) w) ∧
  ∃ int frac,
    written_line N2S start req w =
      Date.toISOString (wall_clock w) +:+ " " +:+ clientIp req +:+ " " +:+
      method req +:+ " " +:+ JSString.or_else (originalUrl req) (url req) +:+ " " +:+
      JSString.of_N (statusCode w) +:+ " " +:+
      (int +:+ "." +:+ String frac EmptyString) +:+ "ms" +:+
      String JSString.newline_char EmptyString ∧
    iso8601 (Date.toISOString (wall_clock w)) = true ∧
    JSString.all_digits (JSString.of_N (statusCode w)) = true ∧
    int ≠ EmptyString ∧ JSString.all_digits int = true ∧
    JSString.is_digit frac = true ∧
    JSString.last_char (written_line N2S start req w) = Some JSString.newline_char ∧
    (count JSString.newline_char (clientIp req) = O →
     count JSString.newline_char (method req) = O →
     count JSString.newline_char (JSString.or_else (originalUrl req) (url req)) = O →
     count JSString.newline_char (written_line N2S start req w) = 1%nat).
Proof.
  intros Hrange. split; [apply on_finish_run|].
  destruct (toFixed1_duration N2S start (hrtime w) Hrange)
    as (int & frac & Hfix & Hne & Hint & Hfrac).
  exists int, frac.
  assert (Hline : written_line N2S start req w =
      Date.toISOString (wall_clock w) +:+ " " +:+ clientIp req +:+ " " +:+
      method req +:+ " " +:+ JSString.or_else (originalUrl req) (url req) +:+ " " +:+
      JSString.of_N (statusCode w) +:+ " " +:+
      (int +:+ "." +:+ String frac EmptyString) +:+ "ms" +:+
      String JSString.newline_char EmptyString).
  { unfold written_line, access_line. by rewrite Hfix. }
  split; [exact Hline|].
  split; [apply toISOString_shape|].
  split; [apply of_N_digits|].
  split; [exact Hne|]. split; [exact Hint|]. split; [exact Hfrac|].
  rewrite Hline. split.
  - rewrite !last_char_app. reflexivity.
  - intros Hip Hmethod Hpath.
    rewrite !count_app, Hip, Hmethod, Hpath.
    rewrite (count_newline_iso8601 _ (toISOString_shape _)).
    assert (Hnl : JSString.is_digit JSString.newline_char = false) by reflexivity.
    rewrite (count_digits _ _ Hnl (proj1 (of_N_digits _))).
    rewrite (count_digits _ int Hnl Hint).
    rewrite (count_digits _ (String frac EmptyString) Hnl) by (cbn; by rewrite Hfrac).
    reflexivity.
Qed.

Lemma access_line_format_witness :
  written_line (λ _, "NaN") 5000 (sample_request ∅)
    (with_clocks 1239567 1762253246514 sample_world)
  = "2025-11-04T10:47:26.514Z 10.0.0.5 GET /api/health 200 1.2ms"
    +:+ String JSString.newline_char EmptyString ∧
  JSString.last_char
    (written_line (λ _, "NaN") 5000 (sample_request ∅)
       (with_clocks 1239567 1762253246514 sample_world))
  = Some JSString.newline_char.
Proof.
  destruct (access_line_format (λ _, "NaN") (sample_request ∅) 5000
              (with_clocks 1239567 1762253246514 sample_world))
    as (_ & int & frac & _ & _ & _ & _ & _ & _ & Hlast & _).
  - cbn. lia.
  - split; [vm_compute; reflexivity | exact Hlast].
Defined.

(** * Further properties of the loggers *)

(** ** The structured line is one line *)

Lemma no_control_app a b :
  no_control (a +:+ b) = no_control a && no_control b.
Proof.
  induction a as [|c a IH]; [done|].
  change (no_control (String c (a +:+ b)) = no_control (String c a) && no_control b).
  cbn [no_control]. rewrite IH. by rewrite andb_assoc.
Qed.

Lemma hex_digit_printable k : (32 <=? N_of_ascii (JSON.hex_digit k))%N = true.
Proof.
  destruct k as [|p]; [done|].
  do 5 (try (destruct p as [p|p|]; try reflexivity)).
Qed.

Lemma escape_printable c : no_control (JSON.escape c) = true.
Proof.
  unfold JSON.escape.
  repeat match goal with
         | |- context [if ?b then _ else _] => destruct b eqn:?; [reflexivity|]
         end.
  destruct (N_of_ascii c <? 32)%N eqn:Hlow.
  - rewrite no_control_app. cbn [no_control]. by rewrite !hex_digit_printable.
  - cbn [no_control]. apply N.ltb_ge in Hlow. apply N.leb_le in Hlow. by rewrite Hlow.
Qed.

Lemma quote_printable s : no_control (JSON.quote s) = true.
Proof.
  unfold JSON.quote. cbn [no_control]. rewrite no_control_app.
  assert (Hall : no_control (JSON.escape_all s) = true).
  { induction s as [|c s IH]; [done|]. cbn [JSON.escape_all].
    by rewrite no_control_app, escape_printable, IH. }
  by rewrite Hall.
Qed.

Lemma join_printable l :
  Forall (λ m, no_control m = true) l → no_control (JSON.join "," l) = true.
Proof.
  induction 1 as [|m l Hm Hl IH]; [done|].
  destruct l as [|m' l]; [done|].
  change (no_control (m +:+ "," +:+ JSON.join "," (m' :: l)) = true).
  by rewrite !no_control_app, Hm, IH.
Qed.

Lemma members_printable props ms :
  JSON.members props = Ok ms → Forall (λ m, no_control m = true) ms.
Proof.
  revert ms. induction props as [|[k v] props IH]; intros ms; cbn [JSON.members].
  - intros [= <-]. constructor.
  - destruct v as [|s|z]; [apply IH| |discriminate].
    destruct (JSON.members props) as [ms'|e]; [|discriminate].
    intros [= <-]. constructor; [|by apply IH].
    by rewrite !no_control_app, !quote_printable.
Qed.

Lemma stringify_printable props text :
  JSON.stringify props = Ok text → no_control text = true.
Proof.
  unfold JSON.stringify.
  destruct (JSON.members props) as [ms|e] eqn:Hms; [|discriminate].
  intros [= <-]. rewrite !no_control_app.
  by rewrite (join_printable _ (members_printable _ _ Hms)).
Qed.

Lemma count_no_control c s :
  (N_of_ascii c < 32)%N → no_control s = true → count c s = O.
Proof.
  intros Hc. induction s as [|x s IH]; [done|]. cbn [no_control count].
  intros [Hx Hs]%andb_true_iff. rewrite (IH Hs).
  destruct (Ascii.eqb_spec x c) as [->|]; [|done].
  apply N.leb_le in Hx. lia.
Qed.

(** X1: whatever the request holds, the text [requestLog] prints has no
    code unit below 32: no line feed, no carriage return and no other
    control character, so each request gives exactly one physical line. *)
Theorem structured_line_is_one_line (req : Request) (w : World) :
  no_control (serialized (logged_record req w)) = true ∧
  count JSString.newline_char (serialized (logged_record req w)) = O ∧
  count (ascii_of_nat 13) (serialized (logged_record req w)) = O.
Proof.
  assert (Hp : no_control (serialized (logged_record req w)) = true).
  { eapply stringify_printable. apply stringify_log_record. }
  split; [exact Hp|]. split; apply count_no_control; try done; reflexivity.
Qed.

(** ** The client address is clean *)

Lemma trimStart_no_leading s : starts_with_space (JSString.trimStart s) = false.
Proof.
  induction s as [|c s IH]; [done|]. cbn [JSString.trimStart].
  destruct (JSString.is_space c) eqn:Hc; [exact IH|]. exact Hc.
Qed.

Lemma trimEnd_no_trailing s : ends_with_space (JSString.trimEnd s) = false.
Proof.
  unfold ends_with_space. induction s as [|c s IH]; [done|].
  cbn [JSString.trimEnd].
  destruct (JSString.trimEnd s) as [|d t].
  - destruct (JSString.is_space c) eqn:Hc; [done|]. cbn. exact Hc.
  - exact IH.
Qed.

Lemma trimEnd_keeps_head s :
  starts_with_space s = false → starts_with_space (JSString.trimEnd s) = false.
Proof.
  destruct s as [|c s]; [done|]. cbn [starts_with_space JSString.trimEnd].
  intros Hc. destruct (JSString.trimEnd s); [by rewrite Hc|exact Hc].
Qed.

Lemma trim_clean s :
  starts_with_space (JSString.trim s) = false ∧ ends_with_space (JSString.trim s) = false.
Proof.
  unfold JSString.trim. split.
  - apply trimEnd_keeps_head, trimStart_no_leading.
  - apply trimEnd_no_trailing.
Qed.

Lemma clientIp_from_header req v :
  headers req !! "x-forwarded-for" = Some v →
  JSString.trim (before JSString.comma_char v) ≠ EmptyString →
  clientIp req = JSString.trim (before JSString.comma_char v).
Proof.
  intros Hv Hne. unfold clientIp. rewrite Hv, split_first. cbn [JSString.or_else].
  destruct (before JSString.comma_char v) as [|c s] eqn:Hb.
  - by destruct Hne.
  - cbn [JSString.truthy]. by rewrite truthy_nonempty.
Qed.

(** X2: the client address written to the access log is never the empty
    string, whatever the headers and the socket hold. *)
Theorem client_address_never_empty (req : Request) :
  JSString.truthy (clientIp req) = true ∧ clientIp req ≠ EmptyString.
Proof.
  assert (Ht : JSString.truthy (clientIp req) = true).
  { unfold clientIp.
    destruct (JSString.truthy (JSString.trim _)) eqn:Htrim; [exact Htrim|].
    destruct (match socket req with Some sk => remoteAddress sk | None => None end)
      as [a|]; cbn; [|done].
    by destruct (JSString.truthy a) eqn:Ha. }
  split; [exact Ht|]. intros Heq. by rewrite Heq in Ht.
Qed.

(** X3: when the address comes from [x-forwarded-for] (the header is
    present and its first entry is not blank), it has no white space at
    either end and holds no comma. *)
Theorem forwarded_address_is_clean (req : Request) (v : string) :
  headers req !! "x-forwarded-for" = Some v →
  JSString.trim (before JSString.comma_char v) ≠ EmptyString →
  starts_with_space (clientIp req) = false ∧
  ends_with_space (clientIp req) = false ∧
  JSString.contains JSString.comma_char (clientIp req) = false.
Proof.
  intros Hv Hne. rewrite (clientIp_from_header req v Hv Hne).
  split; [apply trim_clean|]. split; [apply trim_clean|].
  apply contains_trim, contains_before.
Qed.

Lemma forwarded_address_is_clean_witness :
  clientIp (sample_request {[ "x-forwarded-for" := "  1.2.3.4 , 5.6.7.8" ]}) = "1.2.3.4" ∧
  ends_with_space
    (clientIp (sample_request {[ "x-forwarded-for" := "  1.2.3.4 , 5.6.7.8" ]})) = false.
Proof.
  split; [reflexivity|].
  apply (forwarded_address_is_clean
           (sample_request {[ "x-forwarded-for" := "  1.2.3.4 , 5.6.7.8" ]})
           "  1.2.3.4 , 5.6.7.8"); [reflexivity | discriminate].
Defined.

(** ** Start-up and appends keep what is on disk *)

(** X4: when creating the log directory succeeds, every entry that was on
    disk is still there with the same content (an access log written by
    an earlier run is kept as it is), the directory and its parents exist,
    and nothing else of the process state changes. *)
Theorem startup_keeps_existing_entries (w w1 : World) :
  access_logs_init w = (Ok tt, w1) →
  (∀ q e, entries (fs w) !! q = Some e → entries (fs w1) !! q = Some e) ∧
  (∀ c, entries (fs w) !! ACCESS_LOG = Some (EFile c) →
        file_content (fs w1) ACCESS_LOG = c) ∧
  dirs_along (fs w1) [] LOG_DIR ∧
  w1 = with_fs (fs w1) w.
Proof.
  unfold access_logs_init, fs_mkdirSync_recursive.
  destruct (mkdir_p (fs w) [] (root_writable (fs w)) LOG_DIR) as [f|e] eqn:Hrun;
    [|discriminate].
  intros [= <-]. change (fs (with_fs f w)) with f.
  destruct (mkdir_p_preserves _ _ _ _ _ Hrun) as [_ Hkeep].
  split; [exact Hkeep|]. split; [|split; [by eapply mkdir_p_creates | done]].
  intros c Hc. unfold file_content. by rewrite (Hkeep _ _ Hc).
Qed.

Lemma startup_keeps_existing_entries_witness :
  ∃ w1, access_logs_init (world_with_log "old line") = (Ok tt, w1) ∧
        file_content (fs w1) ACCESS_LOG = "old line".
Proof.
  destruct (access_logs_init (world_with_log "old line")) as [[[]|e] w1] eqn:Hrun;
    [|vm_compute in Hrun; discriminate Hrun].
  exists w1. split; [reflexivity|].
  apply (proj1 (proj2 (startup_keeps_existing_entries _ _ Hrun))).
  reflexivity.
Defined.



(** * The task routes *)

Lemma has_id_spec i db : has_id i db = true ↔ i ∈ t_id <$> db.
Proof.
  unfold has_id. induction db as [|t db IH]; cbn [existsb fmap list_fmap].
  - split; [done | by intros ?%elem_of_nil].
  - rewrite orb_true_iff, IH, elem_of_cons, String.eqb_eq.
    split; (intros [H|H]; [left | right]); done.
Qed.

Lemma has_id_false i db : has_id i db = false ↔ i ∉ t_id <$> db.
Proof. rewrite <- has_id_spec. by destruct (has_id i db). Qed.


Lemma delete_first_absent i db : has_id i db = false → delete_first i db = (0%N, db).
Proof.
  unfold has_id. induction db as [|t db IH]; cbn; [done|].
  intros [Ht Hdb]%orb_false_elim. rewrite Ht, (IH Hdb). done.
Qed.

Lemma delete_first_present i db :
  has_id i db = true →
  ∃ db', delete_first i db = (1%N, db') ∧
         length db = S (length db') ∧
         filter (λ t, t_id t ≠ i) db' = filter (λ t, t_id t ≠ i) db ∧
         (NoDup (t_id <$> db) → has_id i db' = false).
Proof.
  unfold has_id at 1. induction db as [|t db IH]; cbn [existsb delete_first]; [done|].
  destruct (String.eqb (t_id t) i) eqn:Ht.
  - intros _. exists db. apply String.eqb_eq in Ht.
    split; [done|]. split; [done|]. split.
    + rewrite (filter_cons_False _ t db); [done|]. intros Hne. by apply Hne.
    + rewrite fmap_cons. intros [Hnot _]%NoDup_cons. apply has_id_false. by rewrite <- Ht.
  - cbn [orb]. intros Hdb. destruct (IH Hdb) as (db' & -> & Hlen & Hfilter & Hgone).
    exists (t :: db'). apply String.eqb_neq in Ht.
    split; [done|]. split; [cbn [length]; by rewrite Hlen|]. split.
    + rewrite !filter_cons_True by done. by rewrite Hfilter.
    + rewrite fmap_cons. intros [_ Hnodup]%NoDup_cons. unfold has_id. cbn [existsb].
      apply orb_false_intro; [by apply String.eqb_neq | by apply Hgone].
Qed.


Lemma update_first_frame env i title d db :
  t_id <$> (update_first env i title d db).2 = t_id <$> db ∧
  t_createdAt <$> (update_first env i title d db).2 = t_createdAt <$> db ∧
  length (update_first env i title d db).2 = length db.
Proof.
  induction db as [|t db IH]; cbn; [done|].
  destruct (String.eqb (t_id t) i); [done|].
  destruct (update_first env i title d db) as [found db']. cbn in *.
  destruct IH as (-> & -> & ->). done.
Qed.

Lemma update_first_absent env i title d db :
  has_id i db = false → update_first env i title d db = (None, db).
Proof.
  unfold has_id. induction db as [|t db IH]; cbn; [done|].
  intros [Ht Hdb]%orb_false_elim. by rewrite Ht, (IH Hdb).
Qed.


Lemma insert_newest_perm t l : insert_newest t l ≡ₚ t :: l.
Proof.
  induction l as [|u l IH]; cbn; [done|].
  destruct (t_createdAt u <? t_createdAt t); [done|].
  rewrite IH. apply Permutation_swap.
Qed.

Lemma sort_newest_perm db : foldr insert_newest [] db ≡ₚ db.
Proof.
  induction db as [|t db IH]; cbn; [done|]. by rewrite insert_newest_perm, IH.
Qed.

Lemma insert_newest_sorted t l :
  StronglySorted newer_or_same l → StronglySorted newer_or_same (insert_newest t l).
Proof.
  induction 1 as [|u l Hl IH Hu]; cbn; [by repeat constructor|].
  destruct (t_createdAt u <? t_createdAt t) eqn:Hcmp.
  - apply Z.ltb_lt in Hcmp. constructor; [by constructor|].
    constructor; [unfold newer_or_same; lia|].
    eapply Forall_impl; [exact Hu|]. unfold newer_or_same. intros; cbn in *; lia.
  - apply Z.ltb_ge in Hcmp. constructor; [exact IH|].
    rewrite insert_newest_perm. by constructor.
Qed.

Lemma sort_newest_sorted db : StronglySorted newer_or_same (foldr insert_newest [] db).
Proof.
  induction db as [|t db IH]; cbn; [constructor | by apply insert_newest_sorted].
Qed.

(** ** Creating a task *)







(** ** Updating a task *)




(** X10: whatever its input, a PUT keeps the ids and the creation times of
    all tasks, in order, and so their number; for an id that no task has
    it leaves the store as it is and never answers anything but 404. *)
Theorem put_keeps_ids_and_creation (env : Env) (i : string) (body : option Json)
    (db : list Task) :
  t_id <$> (put_task env i body db).2 = t_id <$> db ∧
  t_createdAt <$> (put_task env i body db).2 = t_createdAt <$> db ∧
  (has_id i db = false →
   (put_task env i body db).2 = db ∧
   ∀ st b, (put_task env i body db).1 = Responds st b → st = 404%N).
Proof.
  unfold put_task, Task_findOneAndUpdate.
  destruct (get_prop body "title") as [title|e]; [|by split; [|split]].
  destruct (match title with
            | Some v => match call_trim (Some v) with
                        | Done s => Done (Some s)
                        | Raise e => Raise e
                        end
            | None => Done None
            end) as [new_title|e]; [|by split; [|split]].
  destruct (get_prop body "done") as [d|e]; [|by split; [|split]].
  destruct (negb (db_up env)); [by split; [|split]|].
  set (new_done := match d with Some v => Some (json_truthy (Some v)) | None => None end).
  pose proof (update_first_frame env i new_title new_done db) as (Hids & Hcreated & _).
  pose proof (update_first_absent env i new_title new_done db) as Habsent.
  destruct (update_first env i new_title new_done db) as [[updated|] db'];
    cbn [fst snd] in *.
  - split; [exact Hids|]. split; [exact Hcreated|].
    intros Hno. by specialize (Habsent Hno).
  - split; [done|]. split; [done|]. intros _. split; [done|].
    by intros st b [= <- _].
Qed.


(** ** Deleting a task *)


(** X11: with a database that answers, DELETE of an id no task has is
    answered 404 and changes nothing; DELETE of an id some task has is
    answered 204, removes exactly one task, keeps every task with another
    id in place, and when ids are pairwise distinct leaves no task with
    that id. *)
Theorem delete_removes_exactly_one (env : Env) (i : string) (db : list Task) :
  db_up env = true →
  (has_id i db = false →
   delete_task env i db = (Responds 404 (ErrorBody "not found"), db)) ∧
  (has_id i db = true →
   ∃ db', delete_task env i db = (Responds 204 NoBody, db') ∧
          length db = S (length db') ∧
          filter (λ t, t_id t ≠ i) db' = filter (λ t, t_id t ≠ i) db ∧
          (NoDup (t_id <$> db) → has_id i db' = false)).
Proof.
  intros Hup. unfold delete_task, Task_deleteOne. rewrite Hup. cbn [negb]. split.
  - intros Hno. by rewrite (delete_first_absent _ _ Hno).
  - intros Hyes. destruct (delete_first_present _ _ Hyes) as (db' & -> & Hrest).
    exists db'. by split.
Qed.


Lemma delete_removes_exactly_one_witness :
  delete_task sample_env "u-2" [] = (Responds 404 (ErrorBody "not found"), []) ∧
  delete_task sample_env "u-1"
    [{| t_id := "u-1"; t_title := "buy milk"; t_done := false;
        t_createdAt := 5; t_updatedAt := 5 |}]
  = (Responds 204 NoBody, []).
Proof.
  split.
  - apply (proj1 (delete_removes_exactly_one sample_env "u-2" [] eq_refl)). reflexivity.
  - destruct (proj2 (delete_removes_exactly_one sample_env "u-1"
                       [{| t_id := "u-1"; t_title := "buy milk"; t_done := false;
                           t_createdAt := 5; t_updatedAt := 5 |}] eq_refl) eq_refl)
      as (db' & Hrun & Hlen & _).
    rewrite Hrun. destruct db'; [reflexivity | discriminate Hlen].
Defined.

(** X12: deleting twice: when ids are pairwise distinct and the database
    answers, the DELETE that follows a successful DELETE of the same id is
    answered 404 and changes nothing. *)
Theorem delete_twice_is_not_found (env : Env) (i : string) (db : list Task) :
  db_up env = true →
  NoDup (t_id <$> db) →
  has_id i db = true →
  (delete_task env i db).1 = Responds 204 NoBody ∧
  delete_task env i (delete_task env i db).2
  = (Responds 404 (ErrorBody "not found"), (delete_task env i db).2).
Proof.
  intros Hup Hnodup Hyes.
  unfold delete_task, Task_deleteOne. rewrite Hup. cbn [negb].
  destruct (delete_first_present _ _ Hyes) as (db' & -> & _ & _ & Hgone).
  cbn [N.eqb Pos.eqb negb fst snd]. split; [done|].
  by rewrite (delete_first_absent _ _ (Hgone Hnodup)).
Qed.

Lemma delete_twice_is_not_found_witness :
  delete_task sample_env "u-1"
    (delete_task sample_env "u-1"
       [{| t_id := "u-1"; t_title := "buy milk"; t_done := false;
           t_createdAt := 5; t_updatedAt := 5 |}]).2
  = (Responds 404 (ErrorBody "not found"), []).
Proof.
  apply (delete_twice_is_not_found sample_env "u-1"
           [{| t_id := "u-1"; t_title := "buy milk"; t_done := false;
               t_createdAt := 5; t_updatedAt := 5 |}]); [reflexivity | | reflexivity].
  apply NoDup_singleton.
Defined.



(** ** Listing tasks *)

(** X14: with a database that answers, GET is answered 200 with every
    stored task exactly once, newest creation time first, and leaves the
    store as it is. *)
Theorem get_lists_all_newest_first (env : Env) (db : list Task) :
  db_up env = true →
  ∃ items,
    get_tasks env db = (Responds 200 (TasksBody items), db) ∧
    items ≡ₚ db ∧
    StronglySorted newer_or_same items.
Proof.
  intros Hup. unfold get_tasks, Task_find_newest_first. rewrite Hup. cbn [negb].
  eexists. split; [reflexivity|].
  split; [apply sort_newest_perm | apply sort_newest_sorted].
Qed.

Lemma get_lists_all_newest_first_witness :
  ∃ items,
    get_tasks sample_env
      [{| t_id := "a"; t_title := "old"; t_done := false;
          t_createdAt := 1; t_updatedAt := 1 |};
       {| t_id := "b"; t_title := "new"; t_done := true;
          t_createdAt := 2; t_updatedAt := 2 |}]
    = (Responds 200 (TasksBody items),
       [{| t_id := "a"; t_title := "old"; t_done := false;
           t_createdAt := 1; t_updatedAt := 1 |};
        {| t_id := "b"; t_title := "new"; t_done := true;
           t_createdAt := 2; t_updatedAt := 2 |}]) ∧
    length items = 2%nat ∧ StronglySorted newer_or_same items.
Proof.
  destruct (get_lists_all_newest_first sample_env
    [{| t_id := "a"; t_title := "old"; t_done := false;
        t_createdAt := 1; t_updatedAt := 1 |};
     {| t_id := "b"; t_title := "new"; t_done := true;
        t_createdAt := 2; t_updatedAt := 2 |}]
    eq_refl) as (items & Hrun & Hperm & Hsorted).
  exists items. split; [exact Hrun|]. split; [|exact Hsorted].
  by rewrite Hperm.
Defined.

(** ** What every route keeps *)



(** X16: a request that is answered with a status of 400 or above, or
    that is not answered because the handler throws, leaves the store
    exactly as it was. *)
Theorem failures_leave_store (env : Env) (c : ApiCall) (db : list Task) :
  match (serve env c db).1 with
  | Responds st _ => (400 <= st)%N → (serve env c db).2 = db
  | Rejects _ => (serve env c db).2 = db
  end.
Proof.
  destruct c as [body| |i body|i|]; cbn [serve].
  - unfold post_task.
    destruct (call_trim_opt _) as [title|e]; [|done].
    destruct (negb (JSString.truthy _)); [done|].
    destruct (get_prop body "done") as [d|e]; [|done].
    destruct (Task_create _ _ _ _ _) as [[task db']|e]; [|done].
    cbn. lia.
  - unfold get_tasks. by destruct (Task_find_newest_first env db).
  - unfold put_task.
    destruct (get_prop body "title") as [title|e]; [|done].
    destruct (match title with
              | Some v => match call_trim (Some v) with
                          | Done s => Done (Some s)
                          | Raise e => Raise e
                          end
              | None => Done None
              end) as [new_title|e]; [|done].
    destruct (get_prop body "done") as [d|e]; [|done].
    destruct (Task_findOneAndUpdate _ _ _ _ _) as [[[updated|] db']|e]; [|done|done].
    cbn. lia.
  - unfold delete_task.
    destruct (Task_deleteOne env i db) as [[n db']|e]; [|done].
    destruct (negb (n =? 1)%N); [done|]. cbn. lia.
  - unfold get_health. by destruct (db_up env).
Qed.



